(** * Leadership Intelligence Wrapper: scoring and readiness engine

    A shallow embedding of the scoring formulas, the weight tables and the
    database schema of the LIW backend, as the repository gives them:

    - the RigorScore algorithm [calculate_rigor_score] with its weight
      tables (project overview, sections "Formula Breakdown" and
      "Weights & Factors"; backend README, "The RigorScore Algorithm");
    - the tables [analysis_sources], [readiness_logs], [readiness_checks]
      and [prompt_registry] and the view [v_readiness_evolution] of
      database/schema.sql;
    - the response of the readiness endpoint;
    - the view [v_analysis_summary] of database/schema.sql;
    - of the P1 schema: the access-control tables with their seed rows,
      the view [v_user_permissions], the functions [user_has_permission]
      and [get_workspace_access_level], and the view
      [v_integration_health];
    - the item list and the element keys of TechCarousel.tsx.

    Scores are FLOAT columns computed by Python; the formulas are embedded
    over exact rationals ([Q]), and Python's division, which raises
    ZeroDivisionError on a zero divisor, is embedded as a fallible
    operation.  The weight of a source in an analysis, a FLOAT column
    written by INSERT statements, is embedded as a double precision
    value. *)

From Stdlib Require Import QArith Qpower Qminmax Lqa ZArith List String Ascii
  SpecFloat Lia.
From stdpp Require Import base option gmap sorting pretty.
Import ListNotations.

(** ** Fallible arithmetic *)

Module Py.

(** The outcome of a Python expression that may divide. *)
Inductive result (A : Type) : Type :=
  | Ok (a : A)
  | ZeroDivisionError.
Arguments Ok {A} a.
Arguments ZeroDivisionError {A}.

Definition bind {A B : Type} (r : result A) (k : A -> result B) : result B :=
  match r with
  | Ok a => k a
  | ZeroDivisionError => ZeroDivisionError
  end.

(** [a / b] of Python: raises when [b] is zero. *)
Definition truediv (a b : Q) : result Q :=
  if Qeq_bool b 0 then ZeroDivisionError else Ok (a / b)%Q.

(** An integer count read as a number. *)
Definition of_nat (n : nat) : Q := inject_Z (Z.of_nat n).

(** [Σ] over a list. *)
Definition sum (l : list Q) : Q := fold_right Qplus 0%Q l.

End Py.

(** [x ← r; k] sequences two fallible steps. *)
#[global] Instance result_bind : MBind Py.result :=
  fun A B (k : A -> Py.result B) (r : Py.result A) => Py.bind r k.

(** ** Sources and the weight tables *)

Module Sources.

Local Open Scope Q_scope.
Local Open Scope string_scope.

(** [sources.status VARCHAR(50) DEFAULT 'draft'], one of 'draft', 'final',
    'archived'. *)
Inductive Status : Type := Draft | Final | Archived.

(** The columns of [sources] the score reads.  [document_age_days] is the
    age in days of [document_date] at scoring time, [None] when the column
    is NULL; [keyword_count] is the number of executive-keyword matches
    found in the extracted text of the document. *)
Record Source : Type := {
  source_type : string;
  is_authoritative : bool;
  status : Status;
  document_age_days : option Z;
  word_count : nat;
  keyword_count : nat
}.

(** "Authority: Authoritative sources get 1.5x weight". *)
Definition authority_weight (s : Source) : Q :=
  if is_authoritative s then 1.5 else 1.0.

(** "Source Type Weights": PDF (Final) 1.0, Presentation 0.9,
    Spreadsheet 0.8, Transcript 0.6, Word (Draft) 0.5, keyed by the values
    of [sources.source_type] ('pdf', 'deck', 'spreadsheet', 'transcript',
    'word').
    Modelled from the spec: the weight of a type outside the table, which
    the overview does not give; an unknown type takes the lowest tier. *)
Definition source_type_weight (t : string) : Q :=
  if String.eqb t "pdf" then 1.0
  else if String.eqb t "deck" then 0.9
  else if String.eqb t "spreadsheet" then 0.8
  else if String.eqb t "transcript" then 0.6
  else if String.eqb t "word" then 0.5
  else 0.5.

Definition known_source_types : list string :=
  ["pdf"; "deck"; "spreadsheet"; "transcript"; "word"].

(** Modelled from the spec: the numeric status weights.  The README only
    orders them ("Status: Final > Draft > Archived"); the values are
    final 1.0, draft 0.7, archived 0.4. *)
Definition status_weight (st : Status) : Q :=
  match st with
  | Final => 1.0
  | Draft => 0.7
  | Archived => 0.4
  end.

(** "Recency Boost": < 30 days 1.2, 30-90 days 1.1, 90-180 days 1.05,
    > 180 days 1.0; the rows are tried in this order.
    Modelled from the spec: a missing document date gets no boost. *)
Definition recency_boost (age : option Z) : Q :=
  match age with
  | None => 1.0
  | Some d =>
      if (d <? 30)%Z then 1.2
      else if (d <=? 90)%Z then 1.1
      else if (d <=? 180)%Z then 1.05
      else 1.0
  end.

(** The summand of [V]: [Authority × Type × Status × Recency]. *)
Definition source_factor (s : Source) : Q :=
  authority_weight s * source_type_weight (source_type s)
  * status_weight (status s) * recency_boost (document_age_days s).

End Sources.

(** ** The RigorScore algorithm *)

Module RigorScore.

Import Sources.
Local Open Scope Q_scope.

(** The four tracked dimensions of a contradiction (backend README,
    "Conflict Detection"). *)
Inductive Dimension : Type :=
  | DatesAndTimelines
  | BudgetFigures
  | StrategicDecisions
  | StakeholderPositions.

(** One detected conflict, an element of [analyses.detected_conflicts],
    with its severity as a penalty. *)
Record Conflict : Type := {
  dimension : Dimension;
  ConflictSeverity : Q
}.

(** The score record returned by [POST /api/analyses/{id}/score]. *)
Record ScoreResponse : Type := {
  rigor_score : Q;
  source_veracity_score : Q;
  conflict_detection_score : Q;
  logic_presence_score : Q
}.

Section Algorithm.

(** The tunable [QualityMultiplier] of the logic component. *)
Variable QualityMultiplier : Q.

Definition SourceCount (sources : list Source) : nat := length sources.

Definition KeywordCount (sources : list Source) : nat :=
  fold_right Nat.add 0%nat (map keyword_count sources).

Definition TotalWords (sources : list Source) : nat :=
  fold_right Nat.add 0%nat (map word_count sources).

(** [V = Σ(Authority × Type × Status × Recency) / SourceCount × 100] *)
Definition V (sources : list Source) : Py.result Q :=
  avg ← Py.truediv (Py.sum (map source_factor sources))
                   (Py.of_nat (SourceCount sources));
  Py.Ok (avg * 100).

(** [C = max(0, 100 - Σ(ConflictSeverity))] *)
Definition C (conflicts : list Conflict) : Q :=
  Qmax 0 (100 - Py.sum (map ConflictSeverity conflicts)).

(** [L = min(100, (KeywordCount / TotalWords) × 1000 × QualityMultiplier)] *)
Definition L (sources : list Source) : Py.result Q :=
  density ← Py.truediv (Py.of_nat (KeywordCount sources))
                       (Py.of_nat (TotalWords sources));
  Py.Ok (Qmin 100 (density * 1000 * QualityMultiplier)).

(** [return (0.4 × V) + (0.3 × C) + (0.3 × L)] *)
Definition calculate_rigor_score
    (sources : list Source) (conflicts : list Conflict) : Py.result Q :=
  v ← V sources;
  let c := C conflicts in
  l ← L sources;
  Py.Ok (0.4 * v + 0.3 * c + 0.3 * l).

(** The scoring run behind the endpoint: the composite with its three
    components. *)
Definition score
    (sources : list Source) (conflicts : list Conflict)
    : Py.result ScoreResponse :=
  v ← V sources;
  let c := C conflicts in
  l ← L sources;
  Py.Ok {| rigor_score := 0.4 * v + 0.3 * c + 0.3 * l;
           source_veracity_score := v;
           conflict_detection_score := c;
           logic_presence_score := l |}.

End Algorithm.

(** The composite as the specification words it: every component clamped
    to [0,100] before the weighted sum. *)
Definition clamp (x : Q) : Q := Qmax 0 (Qmin 100 x).

Definition spec_composite (v c l : Q) : Q :=
  0.4 * clamp v + 0.3 * clamp c + 0.3 * clamp l.

(** A single authoritative final PDF dated today, 300 words with three
    keyword matches. *)
Definition authoritative_final_pdf_today : Source :=
  {| source_type := "pdf";
     is_authoritative := true;
     status := Final;
     document_age_days := Some 0%Z;
     word_count := 300;
     keyword_count := 3 |}.

End RigorScore.

(** ** Double precision columns *)

Module Float8.

Local Open Scope Q_scope.

(** [FLOAT] without a precision is [double precision]: IEEE 754 binary64,
    53 bits of mantissa with the exponent of the infinities at 1024. *)
Definition prec : Z := 53.
Definition emax : Z := 1024.

(** A value of a [FLOAT] column: a signed zero, an infinity, NaN, or
    sign, mantissa and exponent of a finite number. *)
Definition float8 : Type := spec_float.

(** The literal [1.0]. *)
Definition one : float8 := S754_finite false 4503599627370496 (-52).

(** The number a value stands for, in lowest terms; the infinities and
    NaN stand for none. *)
Definition to_Q (f : float8) : option Q :=
  match f with
  | S754_zero _ => Some 0
  | S754_finite s m e =>
      Some (Qred (inject_Z (cond_Zopp s (Zpos m)) * 2 ^ e))
  | S754_infinity _ | S754_nan => None
  end.

(** The double nearest to a number, ties to the even mantissa: the
    correctly rounded quotient of numerator and denominator.  Beyond the
    largest double the result is an infinity, below the smallest a
    zero. *)
Definition nearest (q : Q) : float8 :=
  match Qnum q with
  | Z0 => S754_zero false
  | Zpos n =>
      SFdiv prec emax (S754_finite false n 0) (S754_finite false (Qden q) 0)
  | Zneg n =>
      SFdiv prec emax (S754_finite true n 0) (S754_finite false (Qden q) 0)
  end.

(** The cast of a [numeric] value to [double precision]: the nearest
    double, and no value ("out of range") when that is an infinity, or a
    zero although the number is not. *)
Definition of_numeric (q : Q) : option float8 :=
  match nearest q with
  | S754_finite s m e => Some (S754_finite s m e)
  | S754_zero s =>
      match Qnum q with
      | Z0 => Some (S754_zero s)
      | _ => None
      end
  | S754_infinity _ | S754_nan => None
  end.

End Float8.

(** ** The [analysis_sources] table *)

Module AnalysisSources.

Import Float8.
Local Open Scope Q_scope.

(** Primary and foreign keys ([UUID] columns). *)
Abbreviation UUID := positive.

(** A column in an INSERT statement: left out of the column list, or given
    a value, which may be NULL. *)
Inductive Column (A : Type) : Type :=
  | Omitted
  | Given (v : option A).
Arguments Omitted {A}.
Arguments Given {A} v.

(** The value stored for a column declared [DEFAULT d]. *)
Definition with_default {A : Type} (d : A) (c : Column A) : option A :=
  match c with
  | Omitted => Some d
  | Given v => v
  end.

(** A row of [analysis_sources], without its primary key:
<<
    analysis_id UUID REFERENCES analyses(id) ON DELETE CASCADE,
    source_id UUID REFERENCES sources(id) ON DELETE CASCADE,
    weight FLOAT DEFAULT 1.0,
    inclusion_reason TEXT,
    added_at TIMESTAMP WITH TIME ZONE DEFAULT NOW(),
>>
    Every column but the key is nullable. *)
Record AnalysisSource : Type := {
  analysis_id : option UUID;
  source_id : option UUID;
  weight : option float8;
  inclusion_reason : option string;
  added_at : nat
}.

(** The part of the database the table lives in: the keys of [analyses]
    and of [sources], and [analysis_sources] by primary key. *)
Record Db : Type := {
  analyses : gset positive;
  sources : gset positive;
  analysis_sources : gmap positive AnalysisSource
}.

Definition empty_db : Db :=
  {| analyses := ∅; sources := ∅; analysis_sources := ∅ |}.

Inductive SqlError : Type :=
  | UniqueViolation
  | ForeignKeyViolation
  | NumericValueOutOfRange.

(** [CONSTRAINT unique_analysis_source UNIQUE (analysis_id, source_id)]:
    a new row is accepted unless a stored row has the same two keys; NULL
    keys never collide. *)
Definition unique_analysis_source
    (rows : gmap positive AnalysisSource) (r : AnalysisSource) : bool :=
  match analysis_id r, source_id r with
  | Some a, Some s =>
      bool_decide (map_Forall
        (fun (_ : positive) (r' : AnalysisSource) =>
           ¬ (analysis_id r' = Some a ∧ source_id r' = Some s)) rows)
  | _, _ => true
  end.

(** [REFERENCES t(id)]: a non-NULL key must exist in the referenced table. *)
Definition references (t : gset positive) (k : option UUID) : bool :=
  match k with
  | Some i => bool_decide (i ∈ t)
  | None => true
  end.

(** [INSERT INTO analysis_sources (analysis_id, source_id [, weight]
    [, inclusion_reason])] at time [now], the weight being a double
    precision value; the key is generated ([DEFAULT uuid_generate_v4()]).
    The unique index is checked when the row is inserted, the foreign keys
    after it. *)
Definition insert_analysis_source
    (db : Db) (a s : option UUID) (w : Column float8)
    (reason : option string) (now : nat) : Db + SqlError :=
  let r := {| analysis_id := a; source_id := s;
              weight := with_default one w;
              inclusion_reason := reason; added_at := now |} in
  if negb (unique_analysis_source (analysis_sources db) r)
  then inr UniqueViolation
  else if negb (references (analyses db) a && references (sources db) s)
  then inr ForeignKeyViolation
  else inl {| analyses := analyses db;
              sources := sources db;
              analysis_sources :=
                <[fresh (dom (analysis_sources db)) := r]>
                  (analysis_sources db) |}.

(** The same statement with the weight written as a number: [VALUES (a, s,
    w)].  The number is cast to the type of the column before the row is
    formed, so a number out of range fails the statement whatever the
    keys are. *)
Definition insert_values
    (db : Db) (a s : option UUID) (w : Column Q)
    (reason : option string) (now : nat) : Db + SqlError :=
  match w with
  | Omitted => insert_analysis_source db a s Omitted reason now
  | Given None => insert_analysis_source db a s (Given None) reason now
  | Given (Some q) =>
      match of_numeric q with
      | Some f => insert_analysis_source db a s (Given (Some f)) reason now
      | None => inr NumericValueOutOfRange
      end
  end.

(** [DELETE FROM analyses WHERE id = a], with [ON DELETE CASCADE]. *)
Definition delete_analysis (db : Db) (a : UUID) : Db :=
  {| analyses := analyses db ∖ {[a]};
     sources := sources db;
     analysis_sources :=
       filter (fun kr : positive * AnalysisSource =>
                 analysis_id kr.2 ≠ Some a) (analysis_sources db) |}.

(** [DELETE FROM sources WHERE id = s], with [ON DELETE CASCADE]. *)
Definition delete_source (db : Db) (s : UUID) : Db :=
  {| analyses := analyses db;
     sources := sources db ∖ {[s]};
     analysis_sources :=
       filter (fun kr : positive * AnalysisSource =>
                 source_id kr.2 ≠ Some s) (analysis_sources db) |}.

(** [DELETE FROM analysis_sources WHERE id = i]. *)
Definition delete_analysis_source (db : Db) (i : UUID) : Db :=
  {| analyses := analyses db;
     sources := sources db;
     analysis_sources := delete i (analysis_sources db) |}.

(** [UPDATE analysis_sources SET weight = w WHERE id = i]. *)
Definition update_weight (db : Db) (i : UUID) (w : option float8) : Db :=
  {| analyses := analyses db;
     sources := sources db;
     analysis_sources :=
       alter (fun r => {| analysis_id := analysis_id r;
                          source_id := source_id r;
                          weight := w;
                          inclusion_reason := inclusion_reason r;
                          added_at := added_at r |}) i (analysis_sources db) |}.

(** One statement run against the database. *)
Inductive step : Db -> Db -> Prop :=
  | step_create_analysis db a :
      a ∉ analyses db ->
      step db {| analyses := {[a]} ∪ analyses db; sources := sources db;
                 analysis_sources := analysis_sources db |}
  | step_create_source db s :
      s ∉ sources db ->
      step db {| analyses := analyses db; sources := {[s]} ∪ sources db;
                 analysis_sources := analysis_sources db |}
  | step_insert db a s w reason now db' :
      insert_analysis_source db a s w reason now = inl db' ->
      step db db'
  | step_delete_analysis db a : step db (delete_analysis db a)
  | step_delete_source db s : step db (delete_source db s)
  | step_delete_row db i : step db (delete_analysis_source db i)
  | step_update_weight db i w : step db (update_weight db i w).

(** The states the database can be in. *)
Definition reachable (db : Db) : Prop := rtc step empty_db db.

(** A row binds source [s] to analysis [a]. *)
Definition binds (a s : UUID) (r : AnalysisSource) : Prop :=
  analysis_id r = Some a /\ source_id r = Some s.

(** No two rows bind the same source to the same analysis. *)
Definition bound_once (db : Db) : Prop :=
  forall (a s i j : positive) (ri rj : AnalysisSource),
    analysis_sources db !! i = Some ri ->
    analysis_sources db !! j = Some rj ->
    binds a s ri -> binds a s rj -> i = j.

(** A database with one analysis and one source, not yet bound. *)
Definition one_analysis_one_source : Db :=
  {| analyses := {[1%positive]} ∪ ∅;
     sources := {[1%positive]} ∪ ∅;
     analysis_sources := ∅ |}.

(** The same database after [INSERT INTO analysis_sources (analysis_id,
    source_id) VALUES (1, 1)]. *)
Definition bound_db : Db :=
  match insert_analysis_source one_analysis_one_source
          (Some 1%positive) (Some 1%positive) Omitted None 0 with
  | inl db => db
  | inr _ => one_analysis_one_source
  end.

End AnalysisSources.

(** ** Prompt packs, readiness checks and the readiness endpoint *)

Module Readiness.

Local Open Scope string_scope.

(** [criterion_category -- 'completeness', 'quality', 'consistency'] *)
Inductive Category : Type := completeness | quality | consistency.

(** An element of [prompt_registry.required_criteria]. *)
Record Criterion : Type := {
  name : string;
  category : Category
}.

(** The columns of [prompt_registry] the readiness engine reads. *)
Record PromptPack : Type := {
  version_tag : string;
  use_case : string;
  required_criteria : list Criterion;
  is_locked : bool;
  is_active : bool
}.

(** The three packs inserted by schema.sql. *)
Definition v1_0_PM : PromptPack :=
  {| version_tag := "v1.0-PM";
     use_case := "post-mortem";
     required_criteria :=
       [ {| name := "Project Timeline Present"; category := completeness |};
         {| name := "Decision Log Exists"; category := completeness |};
         {| name := "Risk Register Referenced"; category := completeness |};
         {| name := "Budget Variance Documented"; category := quality |};
         {| name := "Stakeholder Feedback Included"; category := quality |};
         {| name := "Root Cause Analysis Present"; category := quality |} ];
     is_locked := true;
     is_active := true |}.

Definition v1_0_STRAT : PromptPack :=
  {| version_tag := "v1.0-STRAT";
     use_case := "strategy";
     required_criteria :=
       [ {| name := "Vision Statement Present"; category := completeness |};
         {| name := "Market Analysis Included"; category := completeness |};
         {| name := "Competitive Landscape Documented";
            category := completeness |};
         {| name := "Resource Requirements Defined"; category := quality |};
         {| name := "Success Metrics Quantified"; category := quality |};
         {| name := "Risk Mitigation Strategy Present";
            category := quality |} ];
     is_locked := true;
     is_active := true |}.

Definition v1_0_DEC : PromptPack :=
  {| version_tag := "v1.0-DEC";
     use_case := "decision";
     required_criteria :=
       [ {| name := "Problem Statement Clear"; category := completeness |};
         {| name := "Multiple Alternatives Considered"; category := quality |};
         {| name := "Tradeoff Analysis Present"; category := quality |};
         {| name := "Data-Driven Rationale"; category := quality |};
         {| name := "Implementation Timeline Defined";
            category := completeness |};
         {| name := "Decision Maker Identified"; category := completeness |} ];
     is_locked := true;
     is_active := true |}.

(** A row of [readiness_checks], without its primary key. *)
Record ReadinessCheck : Type := {
  analysis_id : positive;
  criterion_name : string;
  criterion_category : Category;
  status : bool;
  confidence_score : Q;
  reasoning : string;
  evidence_source_ids : list positive;
  evidence_snippets : list string;
  checked_at : nat
}.

(** The structured verdict of the reasoning oracle on one criterion. *)
Record Verdict : Type := {
  passed : bool;
  confidence : Q;
  rationale : string;
  evidence : list positive;
  snippets : list string
}.

(** [INSERT INTO readiness_checks]: one new row under a generated key. *)
Definition record_check
    (checks : gmap positive ReadinessCheck) (analysis : positive)
    (c : Criterion) (v : Verdict) (now : nat)
    : gmap positive ReadinessCheck :=
  <[fresh (dom checks) :=
      {| analysis_id := analysis;
         criterion_name := name c;
         criterion_category := category c;
         status := passed v;
         confidence_score := confidence v;
         reasoning := rationale v;
         evidence_source_ids := evidence v;
         evidence_snippets := snippets v;
         checked_at := now |}]> checks.

(** Modelled from the spec: the evaluation run of the Readiness Criterion
    Evaluator (services/readiness_engine.py is not among the sources).
    For each required criterion of the bound prompt pack, in order, the
    oracle is asked once and its verdict is recorded as a fresh
    ReadinessCheck. *)
Definition evaluateReadiness
    (oracle : Criterion -> Verdict)
    (checks : gmap positive ReadinessCheck) (analysis : positive)
    (pack : PromptPack) (now : nat) : gmap positive ReadinessCheck :=
  foldl (fun t c => record_check t analysis c (oracle c) now)
        checks (required_criteria pack).

(** The body returned by [POST /api/analyses/{id}/readiness], with the
    fields of the documented response; the score is a quotient and may
    raise. *)
Record ReadinessResponse : Type := {
  is_ready : bool;
  readiness_score : Py.result Q;
  checks_passed : nat;
  checks_total : nat;
  missing_criteria : list string
}.

(** Modelled from the spec: the response of an evaluation run
    (services/readiness_engine.py is not among the sources).  The run
    counts the required criteria and those the oracle passed; the
    readiness percentage is checksPassed / checksTotal × 100; the analysis
    is ready only when all required criteria pass; the criteria that did
    not pass are reported as missing. *)
Definition readiness_response
    (oracle : Criterion -> Verdict) (pack : PromptPack)
    : ReadinessResponse :=
  let criteria := required_criteria pack in
  let passing := filter (fun c => passed (oracle c) = true) criteria in
  {| is_ready := forallb (fun c => passed (oracle c)) criteria;
     readiness_score :=
       x ← Py.truediv (Py.of_nat (length passing))
                      (Py.of_nat (length criteria));
       Py.Ok (x * 100)%Q;
     checks_passed := length passing;
     checks_total := length criteria;
     missing_criteria :=
       map name (filter (fun c => passed (oracle c) = false) criteria) |}.

(** A check of criterion [n] for [analysis]. *)
Definition check_of (analysis : positive) (n : string) (row : ReadinessCheck)
    : Prop :=
  analysis_id row = analysis /\ criterion_name row = n.

(** Readiness as the specification words it.  A stored check is a latest
    check of a criterion when no check of the same analysis and criterion
    is stamped later; the latest check of a criterion is passed when there
    is one and every latest check has passed. *)
Definition latest_check
    (checks : gmap positive ReadinessCheck) (analysis : positive)
    (n : string) (row : ReadinessCheck) : Prop :=
  (exists id : positive, checks !! id = Some row)
  /\ check_of analysis n row
  /\ forall (id' : positive) (row' : ReadinessCheck),
       checks !! id' = Some row' -> check_of analysis n row' ->
       checked_at row' <= checked_at row.

Definition latest_check_passed
    (checks : gmap positive ReadinessCheck) (analysis : positive)
    (n : string) : Prop :=
  (exists row : ReadinessCheck, latest_check checks analysis n row)
  /\ forall row : ReadinessCheck,
       latest_check checks analysis n row -> status row = true.

(** An oracle that passes every criterion, and one that fails
    "Success Metrics Quantified" only. *)
Definition passing_oracle (c : Criterion) : Verdict :=
  {| passed := true; confidence := 0.9; rationale := "found";
     evidence := []; snippets := [] |}.

Definition strict_oracle (c : Criterion) : Verdict :=
  {| passed := negb (String.eqb (name c) "Success Metrics Quantified");
     confidence := 0.9; rationale := "looked up";
     evidence := []; snippets := [] |}.

(** The checks of a first evaluation of analysis 1, bound to the strategy
    pack, at time 1, in which one criterion failed. *)
Definition earlier_run : gmap positive ReadinessCheck :=
  evaluateReadiness strict_oracle ∅ 1%positive v1_0_STRAT 1.

End Readiness.

(** ** Readiness logs and the evolution view *)

Module History.

Local Open Scope Q_scope.

(** [trigger_event -- 'source_added', 'reanalysis', 'manual_trigger'] *)
Inductive Trigger : Type := source_added | reanalysis | manual_trigger.

(** A row of [readiness_logs], without its primary key. *)
Record ReadinessLog : Type := {
  analysis_id : positive;
  snapshot_timestamp : nat;
  rigor_score : Q;
  source_count : nat;
  authoritative_source_count : nat;
  source_veracity_score : Q;
  conflict_detection_score : Q;
  logic_presence_score : Q;
  delta_from_previous : option Q;
  new_sources_added : nat;
  trigger_event : Trigger
}.

(** [PARTITION BY rl.analysis_id] *)
Definition partition_by (a : positive) (logs : list ReadinessLog)
    : list ReadinessLog :=
  filter (fun rl => analysis_id rl = a) logs.

(** [ORDER BY rl.snapshot_timestamp], as an insertion sort. *)
Fixpoint insert_by_timestamp (rl : ReadinessLog) (sorted : list ReadinessLog)
    : list ReadinessLog :=
  match sorted with
  | [] => [rl]
  | x :: rest =>
      if (snapshot_timestamp rl <=? snapshot_timestamp x)%nat
      then rl :: sorted
      else x :: insert_by_timestamp rl rest
  end.

Definition order_by_timestamp (logs : list ReadinessLog) : list ReadinessLog :=
  fold_right insert_by_timestamp [] logs.

(** [LAG(rl.rigor_score) OVER (...)]: every row of an ordered partition with
    the score of the row before it, NULL for the first. *)
Fixpoint lag_rigor_score (previous : option Q) (window : list ReadinessLog)
    : list (ReadinessLog * option Q) :=
  match window with
  | [] => []
  | rl :: rest => (rl, previous) :: lag_rigor_score (Some (rigor_score rl)) rest
  end.

(** [ORDER BY rl.snapshot_timestamp DESC] on the rows of the view, as an
    insertion sort.  SQL leaves the order of rows with equal stamps open;
    here they keep the order they come in. *)
Fixpoint insert_by_timestamp_desc
    (row : ReadinessLog * option Q) (sorted : list (ReadinessLog * option Q))
    : list (ReadinessLog * option Q) :=
  match sorted with
  | [] => [row]
  | x :: rest =>
      if (snapshot_timestamp (fst x) <=? snapshot_timestamp (fst row))%nat
      then row :: sorted
      else x :: insert_by_timestamp_desc row rest
  end.

Definition order_by_timestamp_desc (rows : list (ReadinessLog * option Q))
    : list (ReadinessLog * option Q) :=
  fold_right insert_by_timestamp_desc [] rows.

(** The rows of [v_readiness_evolution] for analysis [a], each with its
    [previous_score]: the window function runs over the entries of the
    analysis in the order of their stamps, and the rows come out in the
    order of the view ([ORDER BY rl.analysis_id, rl.snapshot_timestamp
    DESC]). *)
Definition v_readiness_evolution (a : positive) (logs : list ReadinessLog)
    : list (ReadinessLog * option Q) :=
  order_by_timestamp_desc
    (lag_rigor_score None (order_by_timestamp (partition_by a logs))).

(** The scores of one scoring run. *)
Record Snapshot : Type := {
  composite : Q;
  veracity : Q;
  conflict : Q;
  logic : Q;
  sources_total : nat;
  sources_authoritative : nat;
  sources_new : nat
}.

(** Modelled from the spec: the latest prior entry of an analysis, read by
    the History Tracker before it writes the next one (the tracker is not
    among the sources). *)
Definition latest_entry (a : positive) (logs : list ReadinessLog)
    : option ReadinessLog :=
  last (order_by_timestamp (partition_by a logs)).

(** Modelled from the spec: the History Tracker appends one entry per
    scoring run, with the delta from the latest prior entry of the same
    analysis, NULL when there is none. *)
Definition append_log
    (logs : list ReadinessLog) (a : positive) (now : nat)
    (s : Snapshot) (t : Trigger) : list ReadinessLog :=
  logs ++
  [ {| analysis_id := a;
       snapshot_timestamp := now;
       rigor_score := composite s;
       source_count := sources_total s;
       authoritative_source_count := sources_authoritative s;
       source_veracity_score := veracity s;
       conflict_detection_score := conflict s;
       logic_presence_score := logic s;
       delta_from_previous :=
         (fun p => composite s - rigor_score p) <$> latest_entry a logs;
       new_sources_added := sources_new s;
       trigger_event := t |} ].

(** The tables the tracker can have written.  The runs of one analysis
    are serialised, so an entry is stamped later than the entries the
    table holds for the same analysis; runs of different analyses are
    independent and may carry the same stamp.  A table holds its rows in no
    particular order. *)
Inductive tracked : list ReadinessLog -> Prop :=
  | tracked_nil : tracked []
  | tracked_append logs a now s t :
      tracked logs ->
      Forall (fun rl => analysis_id rl = a ->
                        (snapshot_timestamp rl < now)%nat) logs ->
      tracked (append_log logs a now s t)
  | tracked_permutation logs logs' :
      tracked logs -> Permutation logs logs' -> tracked logs'.

(** [x] is stamped before [y]. *)
Definition before (x y : ReadinessLog) : Prop :=
  (snapshot_timestamp x < snapshot_timestamp y)%nat.

(** The history property on the entries of one analysis in chronological
    order: the first entry, after [previous], has the delta from
    [previous], NULL when there is none, and every later entry the delta
    from the entry before it. *)
Fixpoint deltas_follow (previous : option Q) (entries : list ReadinessLog)
    : Prop :=
  match entries with
  | [] => True
  | rl :: rest =>
      delta_from_previous rl = (fun p => rigor_score rl - p) <$> previous
      /\ deltas_follow (Some (rigor_score rl)) rest
  end.

(** Three runs: analysis 1 scored 50 and later 65, analysis 2 scored 70 in
    the same tick as the first run. *)
Definition snapshot_of (x : Q) : Snapshot :=
  {| composite := x; veracity := x; conflict := x; logic := x;
     sources_total := 1; sources_authoritative := 0; sources_new := 0 |}.

Definition three_runs : list ReadinessLog :=
  append_log
    (append_log
       (append_log [] 1%positive 10 (snapshot_of 50) manual_trigger)
       2%positive 10 (snapshot_of 70) manual_trigger)
    1%positive 12 (snapshot_of 65) source_added.

(** The same table with its rows listed latest first. *)
Definition three_runs_table : list ReadinessLog := rev three_runs.

End History.

(** ** Marking a source as authoritative *)

Module SourceUpdates.

Import Sources.

(** [PATCH /api/sources/{id}/authoritative]: "Mark as authoritative". *)
Definition mark_authoritative (s : Source) : Source :=
  {| source_type := source_type s;
     is_authoritative := true;
     status := status s;
     document_age_days := document_age_days s;
     word_count := word_count s;
     keyword_count := keyword_count s |}.

(** A transcript that is neither authoritative nor final, 200 days old,
    2700 words with nine keyword matches. *)
Definition old_draft_transcript : Source :=
  {| source_type := "transcript";
     is_authoritative := false;
     status := Draft;
     document_age_days := Some 200%Z;
     word_count := 2700;
     keyword_count := 9 |}.

End SourceUpdates.

(** ** The analysis summary view *)

Module AnalysisSummary.

Import AnalysisSources.

(** Every key of [analysis_sources] refers to an existing row. *)
Definition references_hold (db : Db) : Prop :=
  forall (i : positive) (r : AnalysisSource),
    analysis_sources db !! i = Some r ->
    (forall a, analysis_id r = Some a -> a ∈ analyses db)
    /\ (forall s, source_id r = Some s -> s ∈ sources db).

(** [INSERT INTO analyses] under the key [a]. *)
Definition create_analysis (db : Db) (a : UUID) : Db :=
  {| analyses := {[a]} ∪ analyses db;
     sources := AnalysisSources.sources db;
     analysis_sources := analysis_sources db |}.

(** The [asrc.source_id] of the rows joined to analysis [a]
    ([LEFT JOIN analysis_sources asrc ON a.id = asrc.analysis_id]), NULLs
    left out as [COUNT] does. *)
Definition joined_source_ids (db : Db) (a : UUID) : list positive :=
  omap (fun kr : positive * AnalysisSource =>
          if decide (analysis_id kr.2 = Some a) then source_id kr.2
          else None)
       (map_to_list (analysis_sources db)).

(** [COUNT(DISTINCT asrc.source_id) as total_sources] *)
Definition total_sources (db : Db) (a : UUID) : nat :=
  size (list_to_set (joined_source_ids db a) : gset positive).

(** [COUNT(DISTINCT CASE WHEN s.is_authoritative THEN asrc.source_id END)
    as authoritative_sources], where [is_authoritative s] is the column of
    the joined row of [sources], NULL when the column is NULL or no row
    is joined. *)
Definition authoritative_sources
    (is_authoritative : positive -> option bool) (db : Db) (a : UUID)
    : nat :=
  size (list_to_set
          (filter (fun s => is_authoritative s = Some true)
                  (joined_source_ids db a)) : gset positive).

(** The row of [v_analysis_summary] for analysis [a]: its two counts, when
    the analysis exists. *)
Definition v_analysis_summary
    (is_authoritative : positive -> option bool) (db : Db) (a : UUID)
    : option (nat * nat) :=
  if decide (a ∈ analyses db)
  then Some (total_sources db a, authoritative_sources is_authoritative db a)
  else None.

End AnalysisSummary.

(** ** SQL conditions *)

Module Sql.

(** The truth values of an SQL condition. *)
Inductive tri : Type := TRUE | FALSE | UNKNOWN.

Definition tri_and (x y : tri) : tri :=
  match x, y with
  | FALSE, _ | _, FALSE => FALSE
  | TRUE, TRUE => TRUE
  | _, _ => UNKNOWN
  end.

Definition tri_or (x y : tri) : tri :=
  match x, y with
  | TRUE, _ | _, TRUE => TRUE
  | FALSE, FALSE => FALSE
  | _, _ => UNKNOWN
  end.

(** [x = y] on nullable values: unknown as soon as one side is NULL. *)
Definition equal {A : Type} `{EqDecision A} (x y : option A) : tri :=
  match x, y with
  | Some a, Some b => if decide (a = b) then TRUE else FALSE
  | _, _ => UNKNOWN
  end.

(** [x > y] on nullable timestamps. *)
Definition gt (x y : option nat) : tri :=
  match x, y with
  | Some a, Some b => if decide (b < a) then TRUE else FALSE
  | _, _ => UNKNOWN
  end.

(** [x IS NULL] *)
Definition is_null {A : Type} (x : option A) : tri :=
  match x with
  | None => TRUE
  | Some _ => FALSE
  end.

(** [WHERE], [ON] and [EXISTS] keep a row only when its condition is
    TRUE. *)
Definition holds (c : tri) : bool :=
  match c with
  | TRUE => true
  | _ => false
  end.

(** [text LIKE pattern], for the patterns that hold no escape character
    (a backslash): [%] stands for any run of characters, [_] for any one
    character.  Texts are taken byte by byte. *)
Fixpoint like (pattern : string) : string -> bool :=
  match pattern with
  | EmptyString =>
      fun text => match text with EmptyString => true | _ => false end
  | String c pattern' =>
      if Ascii.eqb c "%"%char then
        fix any (text : string) : bool :=
          like pattern' text
          || match text with
             | EmptyString => false
             | String _ text' => any text'
             end
      else if Ascii.eqb c "_"%char then
        fun text =>
          match text with
          | EmptyString => false
          | String _ text' => like pattern' text'
          end
      else
        fun text =>
          match text with
          | EmptyString => false
          | String d text' => Ascii.eqb c d && like pattern' text'
          end
  end.

(** A pattern of ordinary characters only: no wildcard and no escape
    character. *)
Fixpoint plain (pattern : string) : bool :=
  match pattern with
  | EmptyString => true
  | String c pattern' =>
      negb (Ascii.eqb c "%"%char) && negb (Ascii.eqb c "_"%char)
      && negb (Ascii.eqb c "\"%char)
      && plain pattern'
  end.

End Sql.

(** ** Role-based access control (P1 schema) *)

Module Rbac.

Import Sql.
Local Open Scope string_scope.

(** The columns of [users] the permission view reads, with the
    soft-delete stamp. *)
Record User : Type := {
  u_id : positive;
  u_email : string;
  u_full_name : option string;
  u_is_active : option bool;
  u_deleted_at : option nat
}.

Record Role : Type := {
  r_id : positive;
  r_name : string;
  r_level : option Z;
  r_is_active : option bool
}.

Record Permission : Type := {
  p_id : positive;
  p_name : string;
  p_resource : string;
  p_action : string;
  p_is_active : option bool
}.

Record UserRole : Type := {
  ur_user_id : option positive;
  ur_role_id : option positive;
  ur_expires_at : option nat;
  ur_workspace_id : option positive
}.

Record RolePermission : Type := {
  rp_role_id : option positive;
  rp_permission_id : option positive
}.

Record WorkspaceMember : Type := {
  wm_workspace_id : option positive;
  wm_user_id : option positive;
  wm_access_level : string;
  wm_is_active : option bool
}.

Record Db : Type := {
  users : list User;
  roles : list Role;
  permissions : list Permission;
  user_roles : list UserRole;
  role_permissions : list RolePermission;
  workspace_members : list WorkspaceMember
}.

(** A row of [v_user_permissions]. *)
Record UserPermission : Type := {
  user_id : positive;
  email : string;
  full_name : option string;
  role_name : string;
  resource : string;
  action : string;
  workspace_id : option positive
}.

#[global] Instance UserPermission_eq_dec : EqDecision UserPermission.
Proof. solve_decision. Defined.

(** [CREATE VIEW v_user_permissions AS SELECT DISTINCT ... FROM users u
    JOIN user_roles ur ON u.id = ur.user_id JOIN roles r ON ur.role_id =
    r.id JOIN role_permissions rp ON r.id = rp.role_id JOIN permissions p
    ON rp.permission_id = p.id WHERE u.is_active = TRUE AND r.is_active =
    TRUE AND p.is_active = TRUE AND (ur.expires_at IS NULL OR
    ur.expires_at > NOW())], evaluated at time [now]. *)
Definition v_user_permissions (db : Db) (now : nat) : list UserPermission :=
  remove_dups
    (u ← users db;
     ur ← filter (fun ur => holds (equal (Some (u_id u)) (ur_user_id ur))
                            = true)
                 (user_roles db);
     r ← filter (fun r => holds (equal (ur_role_id ur) (Some (r_id r)))
                          = true)
                (roles db);
     rp ← filter (fun rp => holds (equal (Some (r_id r)) (rp_role_id rp))
                            = true)
                 (role_permissions db);
     p ← filter (fun p => holds (equal (rp_permission_id rp) (Some (p_id p)))
                          = true)
                (permissions db);
     if holds
          (tri_and
             (tri_and
                (tri_and (equal (u_is_active u) (Some true))
                         (equal (r_is_active r) (Some true)))
                (equal (p_is_active p) (Some true)))
             (tri_or (is_null (ur_expires_at ur))
                     (gt (ur_expires_at ur) (Some now))))
     then [ {| user_id := u_id u;
               email := u_email u;
               full_name := u_full_name u;
               role_name := r_name r;
               resource := p_resource p;
               action := p_action p;
               workspace_id := ur_workspace_id ur |} ]
     else []).

(** A chain of rows that gives user [uid] the permission on [res] to
    [act] at time [now]: an active user, an assignment that has not
    expired, scoped to [scope] (NULL for all workspaces), of an active role
    that holds an active permission. *)
Definition grant
    (db : Db) (now : nat) (uid : positive) (res act : string)
    (scope : option positive) : Prop :=
  exists (u : User) (ur : UserRole) (r : Role) (rp : RolePermission)
         (p : Permission),
    (u ∈ users db /\ ur ∈ user_roles db /\ r ∈ roles db
     /\ rp ∈ role_permissions db /\ p ∈ permissions db)
    /\ (u_id u = uid /\ ur_user_id ur = Some uid
        /\ ur_role_id ur = Some (r_id r)
        /\ rp_role_id rp = Some (r_id r)
        /\ rp_permission_id rp = Some (p_id p))
    /\ (p_resource p = res /\ p_action p = act)
    /\ (u_is_active u = Some true /\ r_is_active r = Some true
        /\ p_is_active p = Some true)
    /\ (ur_expires_at ur = None
        \/ exists t, ur_expires_at ur = Some t /\ now < t)
    /\ ur_workspace_id ur = scope.

(** [user_has_permission(p_user_id, p_resource, p_action, p_workspace_id
    DEFAULT NULL)]: [SELECT EXISTS(SELECT 1 FROM v_user_permissions WHERE
    user_id = p_user_id AND resource = p_resource AND action = p_action
    AND (workspace_id = p_workspace_id OR workspace_id IS NULL))]. *)
Definition user_has_permission
    (db : Db) (now : nat)
    (p_user_id : option positive) (p_resource p_action : option string)
    (p_workspace_id : option positive) : bool :=
  existsb
    (fun row =>
       holds
         (tri_and
            (tri_and
               (tri_and (equal (Some (user_id row)) p_user_id)
                        (equal (Some (resource row)) p_resource))
               (equal (Some (action row)) p_action))
            (tri_or (equal (workspace_id row) p_workspace_id)
                    (is_null (workspace_id row)))))
    (v_user_permissions db now).

(** [get_workspace_access_level(p_user_id, p_workspace_id)]: [SELECT
    wm.access_level INTO access_level FROM workspace_members wm WHERE
    wm.user_id = p_user_id AND wm.workspace_id = p_workspace_id AND
    wm.is_active = TRUE]; the first row found, NULL when there is none. *)
Definition get_workspace_access_level
    (db : Db) (p_user_id p_workspace_id : option positive) : option string :=
  head
    (map wm_access_level
       (filter
          (fun wm =>
             holds
               (tri_and
                  (tri_and (equal (wm_user_id wm) p_user_id)
                           (equal (wm_workspace_id wm) p_workspace_id))
                  (equal (wm_is_active wm) (Some true))) = true)
          (workspace_members db))).

(** [CONSTRAINT unique_workspace_user UNIQUE (workspace_id, user_id)] on a
    table: no two rows at different positions carry the same two non-NULL
    keys. *)
Definition unique_workspace_user (t : list WorkspaceMember) : Prop :=
  forall (i j : nat) (x y : WorkspaceMember) (w u : positive),
    t !! i = Some x -> t !! j = Some y ->
    wm_workspace_id x = Some w -> wm_user_id x = Some u ->
    wm_workspace_id y = Some w -> wm_user_id y = Some u ->
    i = j.

(** The role-to-permission assignment of the P1 schema: [INSERT INTO
    role_permissions (role_id, permission_id) SELECT r.id, p.id FROM
    role_ids r, perm_ids p WHERE ...]. *)
Definition role_gets (role permission : string) : bool :=
  String.eqb role "superadmin"
  || (String.eqb role "admin" && negb (like "user.%" permission))
  || (String.eqb role "analyst"
      && bool_decide
           (permission ∈
              [ "workspace.read";
                "source.read"; "source.create"; "source.update";
                "analysis.create"; "analysis.read"; "analysis.update";
                "analysis.score"; "analysis.export";
                "integration.read" ]))
  || (String.eqb role "contributor"
      && bool_decide
           (permission ∈
              [ "workspace.read";
                "source.create"; "source.read"; "source.update";
                "analysis.read" ]))
  || (String.eqb role "viewer" && like "%.read" permission).

Definition assign_permissions
    (roles : list Role) (permissions : list Permission)
    : list RolePermission :=
  r ← roles;
  p ← permissions;
  if role_gets (r_name r) (p_name p)
  then [ {| rp_role_id := Some (r_id r); rp_permission_id := Some (p_id p) |} ]
  else [].

(** [INSERT INTO permissions (name, resource, action, description) VALUES
    ...], under the keys 1 to 24. *)
Definition permission (id : positive) (res act : string) : Permission :=
  {| p_id := id; p_name := res +:+ "." +:+ act;
     p_resource := res; p_action := act; p_is_active := Some true |}.

Definition default_permissions : list Permission :=
  [ permission 1 "workspace" "create"; permission 2 "workspace" "read";
    permission 3 "workspace" "update"; permission 4 "workspace" "delete";
    permission 5 "source" "create"; permission 6 "source" "read";
    permission 7 "source" "update"; permission 8 "source" "delete";
    permission 9 "source" "export";
    permission 10 "analysis" "create"; permission 11 "analysis" "read";
    permission 12 "analysis" "update"; permission 13 "analysis" "delete";
    permission 14 "analysis" "export"; permission 15 "analysis" "score";
    permission 16 "user" "create"; permission 17 "user" "read";
    permission 18 "user" "update"; permission 19 "user" "delete";
    permission 20 "integration" "create"; permission 21 "integration" "read";
    permission 22 "integration" "update"; permission 23 "integration" "delete";
    permission 24 "integration" "sync" ].

(** [INSERT INTO roles (name, display_name, description, level,
    is_system_role) VALUES ...], under the keys 1 to 5. *)
Definition default_roles : list Role :=
  [ {| r_id := 1; r_name := "superadmin"; r_level := Some 100%Z;
       r_is_active := Some true |};
    {| r_id := 2; r_name := "admin"; r_level := Some 80%Z;
       r_is_active := Some true |};
    {| r_id := 3; r_name := "analyst"; r_level := Some 50%Z;
       r_is_active := Some true |};
    {| r_id := 4; r_name := "contributor"; r_level := Some 30%Z;
       r_is_active := Some true |};
    {| r_id := 5; r_name := "viewer"; r_level := Some 10%Z;
       r_is_active := Some true |} ].

(** [CONSTRAINT unique_role_permission UNIQUE (role_id, permission_id)]:
    no two rows at different positions carry the same two non-NULL
    keys. *)
Definition unique_role_permission (t : list RolePermission) : Prop :=
  forall (i j : nat) (x y : RolePermission) (r p : positive),
    t !! i = Some x -> t !! j = Some y ->
    rp_role_id x = Some r -> rp_permission_id x = Some p ->
    rp_role_id y = Some r -> rp_permission_id y = Some p ->
    i = j.

(** The roles, the permissions and their assignment are those the P1
    schema inserts. *)
Definition seeded (db : Db) : Prop :=
  roles db = default_roles
  /\ permissions db = default_permissions
  /\ role_permissions db
     = assign_permissions default_roles default_permissions.

(** A database seeded by the P1 schema, with two users: Alice (1), a
    viewer in every workspace, and Bob (2), an admin of workspace 7 only;
    Bob is an active member of workspace 7, Alice a deactivated one. *)
Definition office : Db :=
  {| users :=
       [ {| u_id := 1; u_email := "alice@example.com";
            u_full_name := Some "Alice"; u_is_active := Some true;
            u_deleted_at := None |};
         {| u_id := 2; u_email := "bob@example.com";
            u_full_name := Some "Bob"; u_is_active := Some true;
            u_deleted_at := None |} ];
     roles := default_roles;
     permissions := default_permissions;
     user_roles :=
       [ {| ur_user_id := Some 1%positive; ur_role_id := Some 5%positive;
            ur_expires_at := None; ur_workspace_id := None |};
         {| ur_user_id := Some 2%positive; ur_role_id := Some 2%positive;
            ur_expires_at := None; ur_workspace_id := Some 7%positive |} ];
     role_permissions := assign_permissions default_roles default_permissions;
     workspace_members :=
       [ {| wm_workspace_id := Some 7%positive; wm_user_id := Some 2%positive;
            wm_access_level := "admin"; wm_is_active := Some true |};
         {| wm_workspace_id := Some 7%positive; wm_user_id := Some 1%positive;
            wm_access_level := "viewer"; wm_is_active := Some false |} ] |}.

End Rbac.

(** ** Ordering of readiness logs *)

Module HistoryOrder.

Import History.

(** [x] is stamped no later than [y]. *)
Definition not_after (x y : ReadinessLog) : Prop :=
  (snapshot_timestamp x <= snapshot_timestamp y)%nat.

End HistoryOrder.

(** ** The integration health view (P1 schema) *)

Module IntegrationHealth.

Local Open Scope string_scope.

(** The columns of [sync_jobs] the view reads. *)
Record SyncJob : Type := {
  connection_id : option positive;
  status : option string;
  completed_at : option nat
}.

(** The aggregates of one row of [v_integration_health]. *)
Record Health : Type := {
  total_jobs : nat;
  completed_jobs : nat;
  failed_jobs : nat;
  last_successful_sync : option nat
}.

(** [MAX(...)]: the greatest non-NULL value, NULL when there is none. *)
Definition sql_max (values : list (option nat)) : option nat :=
  foldr (fun v acc =>
           match v, acc with
           | Some a, Some b => Some (Nat.max a b)
           | Some a, None => Some a
           | None, _ => acc
           end) None values.

(** [LEFT JOIN sync_jobs sj ON ic.id = sj.connection_id]: the jobs joined
    to connection [ic]. *)
Definition joined_jobs (jobs : list SyncJob) (ic : positive) : list SyncJob :=
  filter (fun sj => Sql.holds (Sql.equal (Some ic) (connection_id sj)) = true)
         jobs.

(** [COUNT(CASE WHEN sj.status = s THEN 1 END)] *)
Definition count_status (s : string) (jobs : list SyncJob) : nat :=
  length (filter (fun sj => Sql.holds (Sql.equal (status sj) (Some s)) = true)
                 jobs).

(** The aggregates of [v_integration_health] for the connection [ic]:
    [COUNT(sj.id) as total_jobs, COUNT(CASE WHEN sj.status = 'completed'
    THEN 1 END) as completed_jobs, COUNT(CASE WHEN sj.status = 'failed'
    THEN 1 END) as failed_jobs, MAX(sj.completed_at) as
    last_successful_sync]. *)
Definition v_integration_health (jobs : list SyncJob) (ic : positive)
    : Health :=
  let joined := joined_jobs jobs ic in
  {| total_jobs := length joined;
     completed_jobs := count_status "completed" joined;
     failed_jobs := count_status "failed" joined;
     last_successful_sync := sql_max (map completed_at joined) |}.

End IntegrationHealth.

(** ** The technology carousel *)

Module TechCarousel.

Local Open Scope string_scope.

Record Item : Type := {
  name : string;
  category : string
}.

Definition ITEMS : list Item :=
  [ {| name := "TypeScript"; category := "tech" |};
    {| name := "React"; category := "tech" |};
    {| name := "Flutter"; category := "tech" |};
    {| name := "Node.js"; category := "tech" |};
    {| name := "Replit"; category := "platform" |};
    {| name := "Vercel"; category := "platform" |};
    {| name := "Google AI Studio"; category := "platform" |};
    {| name := "Claude"; category := "tool" |};
    {| name := "Cursor"; category := "tool" |};
    {| name := "OpenAI"; category := "model" |};
    {| name := "Google Gemini"; category := "model" |} ].

(** [[...ITEMS, ...ITEMS, ...ITEMS, ...ITEMS]]: four sets of the items. *)
Definition four_sets (items : list Item) : list Item :=
  items ++ items ++ items ++ items.

(** [const list = [...ITEMS, ...ITEMS, ...ITEMS, ...ITEMS]] *)
Definition carousel_list : list Item := four_sets ITEMS.

(** [key={`${item.name}-${index}`}] *)
Definition key (index : nat) (item : Item) : string :=
  name item +:+ "-" +:+ pretty index.

(** The keys of the rendered elements: [list.map((item, index) => ...)]. *)
Definition keys (items : list Item) : list string := imap key items.

(** A text without a hyphen. *)
Fixpoint no_hyphen (s : string) : bool :=
  match s with
  | EmptyString => true
  | String c s' => negb (Ascii.eqb c "-"%char) && no_hyphen s'
  end.

End TechCarousel.


(** * Properties *)

(** ** The weight tables and the per-source factor *)

Section WeightTables.

Import Sources.
Local Open Scope Q_scope.
Local Open Scope string_scope.

Lemma authority_weight_bounds (s : Source) :
  1.0 <= authority_weight s <= 1.5.
Proof.
  unfold authority_weight.
  destruct (is_authoritative s); split; unfold Qle; simpl; lia.
Qed.

Lemma source_type_weight_bounds (t : string) :
  0.5 <= source_type_weight t <= 1.0.
Proof.
  unfold source_type_weight.
  repeat (match goal with
          | |- context [String.eqb ?a ?b] => destruct (String.eqb a b)
          end);
    split; unfold Qle; simpl; lia.
Qed.

Lemma source_type_weight_unknown (t : string) :
  ~ In t known_source_types -> source_type_weight t = 0.5.
Proof.
  intros Hn. unfold source_type_weight.
  repeat (match goal with
          | |- context [String.eqb ?a ?b] =>
              destruct (String.eqb_spec a b) as [->|_];
              [ exfalso; apply Hn; simpl; tauto | ]
          end).
  reflexivity.
Qed.

Lemma status_weight_bounds (st : Status) :
  0.4 <= status_weight st <= 1.0.
Proof.
  destruct st; split; unfold Qle; simpl; lia.
Qed.

Lemma recency_boost_bounds (age : option Z) :
  1.0 <= recency_boost age <= 1.2.
Proof.
  unfold recency_boost. destruct age as [d|].
  - repeat (match goal with
            | |- context [if ?b then _ else _] => destruct b
            end); split; unfold Qle; simpl; lia.
  - split; unfold Qle; simpl; lia.
Qed.

Lemma recency_boost_table (d : Z) :
  ((d < 30)%Z -> recency_boost (Some d) = 1.2)
  /\ ((30 <= d <= 90)%Z -> recency_boost (Some d) = 1.1)
  /\ ((90 < d <= 180)%Z -> recency_boost (Some d) = 1.05)
  /\ ((180 < d)%Z -> recency_boost (Some d) = 1.0).
Proof.
  unfold recency_boost.
  destruct (Z.ltb_spec d 30), (Z.leb_spec d 90), (Z.leb_spec d 180);
    repeat split; intros; try reflexivity; lia.
Qed.

Lemma source_factor_le_max (s : Source) :
  source_factor s <= 1.5 * 1.0 * 1.0 * 1.2.
Proof.
  unfold source_factor.
  pose proof (authority_weight_bounds s) as [Ha1 Ha2].
  pose proof (source_type_weight_bounds (source_type s)) as [Ht1 Ht2].
  pose proof (status_weight_bounds (status s)) as [Hs1 Hs2].
  pose proof (recency_boost_bounds (document_age_days s)) as [Hr1 Hr2].
  set (a := authority_weight s) in *.
  set (t := source_type_weight (source_type s)) in *.
  set (w := status_weight (status s)) in *.
  set (r := recency_boost (document_age_days s)) in *.
  assert (H1 : 0 <= a * t /\ a * t <= 1.5) by (split; nra).
  destruct H1 as [H1 H2].
  assert (H3 : 0 <= a * t * w /\ a * t * w <= 1.5) by (split; nra).
  destruct H3 as [H3 H4].
  nra.
Qed.

End WeightTables.

(** C6: the per-source factor is the product of the four table weights;
    the tables are as listed (unknown source types fall in the lowest
    tier, and the lookup is total), and no source has a larger factor than
    a single authoritative final PDF dated today, whose factor is
    1.5 × 1.0 × 1.0 × 1.2. *)
Theorem source_factor_tables_and_maximum (s : Sources.Source) :
  let best := RigorScore.authoritative_final_pdf_today in
  (Sources.source_factor s ==
     (if Sources.is_authoritative s then 1.5 else 1.0)
     * Sources.source_type_weight (Sources.source_type s)
     * Sources.status_weight (Sources.status s)
     * Sources.recency_boost (Sources.document_age_days s))%Q
  /\ (Sources.source_type_weight "pdf" == 1.0
      /\ Sources.source_type_weight "deck" == 0.9
      /\ Sources.source_type_weight "spreadsheet" == 0.8
      /\ Sources.source_type_weight "transcript" == 0.6
      /\ Sources.source_type_weight "word" == 0.5)%Q
  /\ (forall t : string,
        ~ In t Sources.known_source_types ->
        (Sources.source_type_weight t == 0.5)%Q
        /\ forall t' : string,
             (Sources.source_type_weight t <= Sources.source_type_weight t')%Q)
  /\ (Sources.status_weight Sources.Final == 1.0
      /\ Sources.status_weight Sources.Draft == 0.7
      /\ Sources.status_weight Sources.Archived == 0.4)%Q
  /\ (forall d : Z,
        ((d < 30)%Z -> Sources.recency_boost (Some d) == 1.2)
        /\ ((30 <= d <= 90)%Z -> Sources.recency_boost (Some d) == 1.1)
        /\ ((90 < d <= 180)%Z -> Sources.recency_boost (Some d) == 1.05)
        /\ ((180 < d)%Z -> Sources.recency_boost (Some d) == 1.0))%Q
  /\ (Sources.source_factor s <= Sources.source_factor best)%Q
  /\ (Sources.source_factor best == 1.5 * 1.0 * 1.0 * 1.2)%Q.
Proof.
  intros best.
  assert (Hbest : (Sources.source_factor best == 1.5 * 1.0 * 1.0 * 1.2)%Q)
    by reflexivity.
  split; [reflexivity|].
  split; [repeat split; reflexivity|].
  split.
  { intros t Ht. rewrite (source_type_weight_unknown t Ht).
    split; [reflexivity|]. intros t'.
    apply (source_type_weight_bounds t'). }
  split; [repeat split; reflexivity|].
  split.
  { intros d. destruct (recency_boost_table d) as (H1 & H2 & H3 & H4).
    repeat split; intros Hd;
      [rewrite H1|rewrite H2|rewrite H3|rewrite H4]; auto; reflexivity. }
  split; [|exact Hbest].
  rewrite Hbest. apply source_factor_le_max.
Qed.

(** ** The RigorScore components *)

Section Components.

Import Sources RigorScore.
Local Open Scope Q_scope.

Lemma of_nat_zero_test (n : nat) :
  Qeq_bool (Py.of_nat n) 0 = (n =? 0)%nat.
Proof.
  destruct n as [|n]; reflexivity.
Qed.

Lemma of_nat_nonneg (n : nat) : 0 <= Py.of_nat n.
Proof.
  unfold Py.of_nat, Qle. simpl. lia.
Qed.

Lemma sum_nonneg (l : list Q) : Forall (fun x => 0 <= x) l -> 0 <= Py.sum l.
Proof.
  induction 1 as [|x l Hx _ IH]; simpl; [apply Qle_refl|].
  lra.
Qed.

Lemma source_factor_nonneg (s : Source) : 0 <= source_factor s.
Proof.
  unfold source_factor.
  pose proof (authority_weight_bounds s) as [Ha1 Ha2].
  pose proof (source_type_weight_bounds (source_type s)) as [Ht1 Ht2].
  pose proof (status_weight_bounds (status s)) as [Hs1 Hs2].
  pose proof (recency_boost_bounds (document_age_days s)) as [Hr1 Hr2].
  set (a := authority_weight s) in *.
  set (t := source_type_weight (source_type s)) in *.
  set (w := status_weight (status s)) in *.
  set (r := recency_boost (document_age_days s)) in *.
  assert (H1 : 0 <= a * t) by nra.
  assert (H2 : 0 <= a * t * w) by nra.
  nra.
Qed.

(** The veracity component is defined on every non-empty source set. *)
Lemma V_defined (sources : list Source) :
  sources <> [] -> exists v, V sources = Py.Ok v /\ 0 <= v.
Proof.
  intros Hne.
  unfold V, SourceCount, mbind, result_bind, Py.bind, Py.truediv.
  rewrite of_nat_zero_test.
  destruct sources as [|s rest]; [congruence|]. simpl Nat.eqb. cbv iota.
  eexists; split; [reflexivity|].
  assert (Hs : 0 <= Py.sum (map source_factor (s :: rest))).
  { apply sum_nonneg. apply List.Forall_forall. intros x Hx.
    apply in_map_iff in Hx as (y & <- & _). apply source_factor_nonneg. }
  assert (Hn : 0 < Py.of_nat (length (s :: rest))).
  { unfold Py.of_nat, Qlt. simpl. lia. }
  apply Qmult_le_0_compat; [|lra].
  apply Qle_shift_div_l; [exact Hn|]. lra.
Qed.

(** The conflict component lies in [0,100] when no severity is negative. *)
Lemma C_range (conflicts : list Conflict) :
  Forall (fun c => 0 <= ConflictSeverity c) conflicts ->
  0 <= C conflicts <= 100.
Proof.
  intros H. unfold C. split; [apply Q.le_max_l|].
  apply Q.max_lub; [lra|].
  assert (0 <= Py.sum (map ConflictSeverity conflicts)).
  { apply sum_nonneg. apply List.Forall_forall. intros x Hx.
    apply in_map_iff in Hx as (y & <- & Hy).
    rewrite List.Forall_forall in H. apply H, Hy. }
  lra.
Qed.

(** The logic component lies in [0,100] when it is defined and the quality
    multiplier is not negative. *)
Lemma L_range (qm : Q) (sources : list Source) (l : Q) :
  0 <= qm -> L qm sources = Py.Ok l -> 0 <= l <= 100.
Proof.
  intros Hqm. unfold L, mbind, result_bind, Py.bind, Py.truediv.
  rewrite of_nat_zero_test.
  destruct (TotalWords sources) as [|n] eqn:Hn; simpl Nat.eqb; cbv iota;
    [discriminate|].
  intros [= <-]. split; [|apply Q.le_min_l].
  apply Q.min_glb; [lra|].
  pose proof (of_nat_nonneg (KeywordCount sources)) as Hk.
  assert (Hd : 0 < Py.of_nat (S n)) by (unfold Py.of_nat, Qlt; simpl; lia).
  assert (0 <= Py.of_nat (KeywordCount sources) / Py.of_nat (S n)).
  { apply Qle_shift_div_l; [exact Hd|]. lra. }
  apply Qmult_le_0_compat; [|exact Hqm].
  apply Qmult_le_0_compat; lra.
Qed.

(** The composite is the weighted sum of the components the run reports. *)
Lemma score_weighted_sum (qm : Q) sources conflicts (r : ScoreResponse) :
  score qm sources conflicts = Py.Ok r ->
  rigor_score r = 0.4 * source_veracity_score r
                  + 0.3 * conflict_detection_score r
                  + 0.3 * logic_presence_score r
  /\ calculate_rigor_score qm sources conflicts = Py.Ok (rigor_score r).
Proof.
  unfold score, calculate_rigor_score, mbind, result_bind, Py.bind.
  destruct (V sources) as [v|]; [|discriminate].
  destruct (L qm sources) as [l|]; [|discriminate].
  intros [= <-]. simpl. split; reflexivity.
Qed.

End Components.

Section ScoreClaims.

Import Sources RigorScore.
Local Open Scope Q_scope.

(** C1: the composite is the weighted sum 0.4 V + 0.3 C + 0.3 L of
    components clamped to [0,100].  On a single authoritative final PDF
    dated today the run reports V = 180, C = 100, L = 10 and the composite
    0.4×180 + 0.3×100 + 0.3×10 = 105: the weighted sum is taken over the
    veracity component as computed, not clamped to 100, and differs from
    the composite of the clamped components, 73. *)
Theorem composite_takes_unclamped_veracity :
  exists r : ScoreResponse,
    score 1 [authoritative_final_pdf_today] [] = Py.Ok r
    /\ calculate_rigor_score 1 [authoritative_final_pdf_today] []
       = Py.Ok (rigor_score r)
    /\ source_veracity_score r == 180
    /\ conflict_detection_score r == 100
    /\ logic_presence_score r == 10
    /\ rigor_score r == 0.4 * 180 + 0.3 * 100 + 0.3 * 10
    /\ spec_composite (source_veracity_score r) (conflict_detection_score r)
                      (logic_presence_score r)
       == 0.4 * 100 + 0.3 * 100 + 0.3 * 10
    /\ ~ rigor_score r
         == spec_composite (source_veracity_score r)
                           (conflict_detection_score r)
                           (logic_presence_score r).
Proof.
  eexists. split; [reflexivity|].
  repeat split; try reflexivity.
  vm_compute. discriminate.
Qed.

(** C2: V, C, L and the composite lie in [0,100].  On a single
    authoritative final PDF dated today C and L do, but the veracity
    component is 180 and the composite 105, both above 100. *)
Theorem veracity_and_composite_exceed_100 :
  exists r : ScoreResponse,
    score 1 [authoritative_final_pdf_today] [] = Py.Ok r
    /\ 0 <= conflict_detection_score r <= 100
    /\ 0 <= logic_presence_score r <= 100
    /\ source_veracity_score r == 180
    /\ rigor_score r == 105
    /\ 100 < source_veracity_score r
    /\ 100 < rigor_score r.
Proof.
  eexists. split; [reflexivity|].
  repeat split; vm_compute; congruence.
Qed.

(** C7: the logic component is
    min(100, (KeywordCount / TotalWords) × 1000 × QualityMultiplier) when
    the sources hold at least one word; with zero words in total the
    division raises, and no score L = 0 is returned. *)
Theorem logic_presence_formula_and_zero_words
    (QualityMultiplier : Q) (sources : list Source) :
  L QualityMultiplier sources =
    if (TotalWords sources =? 0)%nat
    then Py.ZeroDivisionError
    else Py.Ok (Qmin 100 (Py.of_nat (KeywordCount sources)
                          / Py.of_nat (TotalWords sources)
                          * 1000 * QualityMultiplier)).
Proof.
  unfold L, mbind, result_bind, Py.bind, Py.truediv.
  rewrite of_nat_zero_test.
  destruct (TotalWords sources =? 0)%nat; reflexivity.
Qed.

(** C4: on an empty source set the run completes with V = 0 and C = 100
    and a warning.  The conflict component of an empty set is 100, but the
    veracity component divides by the source count, which is zero: the
    division raises, and the run returns no scores, whatever the conflicts
    and the quality multiplier. *)
Theorem empty_source_set_raises
    (QualityMultiplier : Q) (conflicts : list Conflict) :
  V [] = Py.ZeroDivisionError
  /\ C [] == 100
  /\ score QualityMultiplier [] conflicts = Py.ZeroDivisionError
  /\ calculate_rigor_score QualityMultiplier [] conflicts
     = Py.ZeroDivisionError.
Proof.
  repeat split; reflexivity.
Qed.

End ScoreClaims.

(** ** The source set of an analysis *)

Section SourceSet.

Import AnalysisSources.
Local Open Scope Q_scope.

Lemma unique_analysis_source_true rows r a s :
  unique_analysis_source rows r = true ->
  analysis_id r = Some a -> source_id r = Some s ->
  forall i r', rows !! i = Some r' -> ~ binds a s r'.
Proof.
  unfold unique_analysis_source. intros Hu Ha Hs i r' Hi.
  rewrite Ha, Hs in Hu. apply bool_decide_eq_true in Hu.
  exact (Hu i r' Hi).
Qed.

Lemma unique_analysis_source_false rows r a s i r' :
  analysis_id r = Some a -> source_id r = Some s ->
  rows !! i = Some r' -> binds a s r' ->
  unique_analysis_source rows r = false.
Proof.
  unfold unique_analysis_source. intros Ha Hs Hi Hb.
  rewrite Ha, Hs. apply bool_decide_eq_false.
  intros Hall. exact (Hall i r' Hi Hb).
Qed.

Lemma insert_analysis_source_inl db a s w reason now db' :
  insert_analysis_source db a s w reason now = inl db' ->
  let r := {| analysis_id := a; source_id := s;
              weight := with_default Float8.one w;
              inclusion_reason := reason; added_at := now |} in
  unique_analysis_source (analysis_sources db) r = true
  /\ analyses db' = analyses db
  /\ sources db' = sources db
  /\ analysis_sources db' =
       <[fresh (dom (analysis_sources db)) := r]> (analysis_sources db).
Proof.
  intros H r. unfold insert_analysis_source in H. fold r in H.
  destruct (unique_analysis_source (analysis_sources db) r); simpl in H;
    [|discriminate].
  destruct (references (analyses db) a && references (sources db) s);
    simpl in H; [|discriminate].
  injection H as <-. simpl. auto.
Qed.

Lemma fresh_key_unused (rows : gmap positive AnalysisSource) :
  rows !! fresh (dom rows) = None.
Proof. apply not_elem_of_dom, is_fresh. Qed.

Lemma step_bound_once db db' : step db db' -> bound_once db -> bound_once db'.
Proof.
  intros Hstep Hinv.
  destruct Hstep as [db a Ha|db s Hs|db a s w reason now db' Hins
                    |db a|db s|db i|db i w]; try exact Hinv.
  - apply insert_analysis_source_inl in Hins as (Hu & _ & _ & Hrows).
    intros a0 s0 i j ri rj Hi Hj Bi Bj. rewrite Hrows in Hi, Hj.
    apply lookup_insert_Some in Hi as [[<- <-]|[Hni Hi]];
      apply lookup_insert_Some in Hj as [[<- <-]|[Hnj Hj]].
    + reflexivity.
    + destruct Bi as [Bi1 Bi2]. simpl in Bi1, Bi2.
      exfalso. eapply (unique_analysis_source_true _ _ a0 s0 Hu); eauto.
    + destruct Bj as [Bj1 Bj2]. simpl in Bj1, Bj2.
      exfalso. eapply (unique_analysis_source_true _ _ a0 s0 Hu); eauto.
    + eapply Hinv; eauto.
  - intros a0 s0 i j ri rj Hi Hj Bi Bj. simpl in Hi, Hj.
    apply map_lookup_filter_Some in Hi as [Hi _].
    apply map_lookup_filter_Some in Hj as [Hj _].
    eapply Hinv; eauto.
  - intros a0 s0 i j ri rj Hi Hj Bi Bj. simpl in Hi, Hj.
    apply map_lookup_filter_Some in Hi as [Hi _].
    apply map_lookup_filter_Some in Hj as [Hj _].
    eapply Hinv; eauto.
  - intros a0 s0 i' j ri rj Hi Hj Bi Bj. simpl in Hi, Hj.
    apply lookup_delete_Some in Hi as [_ Hi].
    apply lookup_delete_Some in Hj as [_ Hj].
    eapply Hinv; eauto.
  - intros a0 s0 i' j ri rj Hi Hj Bi Bj. simpl in Hi, Hj.
    assert (Hkeep : forall k r, alter
              (fun r0 => {| analysis_id := analysis_id r0;
                            source_id := source_id r0;
                            weight := w;
                            inclusion_reason := inclusion_reason r0;
                            added_at := added_at r0 |}) i
              (analysis_sources db) !! k = Some r ->
            exists r0, analysis_sources db !! k = Some r0
                       /\ analysis_id r0 = analysis_id r
                       /\ source_id r0 = source_id r).
    { intros k r Hk. apply lookup_alter_Some in Hk
        as [(-> & r0 & Hr0 & ->)|[_ Hk]]; eauto. }
    apply Hkeep in Hi as (ri0 & Hi & Hia & His).
    apply Hkeep in Hj as (rj0 & Hj & Hja & Hjs).
    destruct Bi as [Bi1 Bi2], Bj as [Bj1 Bj2].
    eapply (Hinv a0 s0 i' j ri0 rj0); eauto; split; congruence.
Qed.

Lemma rtc_step_bound_once db db' :
  rtc step db db' -> bound_once db -> bound_once db'.
Proof.
  induction 1 as [|db1 db2 db3 H12 _ IH]; [auto|].
  intros H1. apply IH. eapply step_bound_once; eauto.
Qed.

Lemma reachable_bound_once db : reachable db -> bound_once db.
Proof.
  intros H. eapply rtc_step_bound_once; [exact H|].
  intros a s i j ri rj Hi. simpl in Hi. rewrite lookup_empty in Hi.
  discriminate.
Qed.
Lemma one_analysis_one_source_reachable : reachable one_analysis_one_source.
Proof.
  unfold reachable.
  eapply rtc_l; [apply (step_create_analysis empty_db 1%positive)|];
    [simpl; set_solver|].
  eapply rtc_l; [apply (step_create_source _ 1%positive)|];
    [simpl; set_solver|].
  apply rtc_refl.
Qed.

Lemma bound_db_reachable : reachable bound_db.
Proof.
  eapply rtc_r; [apply one_analysis_one_source_reachable|].
  apply (step_insert _ (Some 1%positive) (Some 1%positive) Omitted None 0%nat).
  vm_compute. reflexivity.
Qed.

(** C10: in every state of the database a source is bound to an analysis
    by at most one row, and binding an already bound pair again is
    rejected by the constraint [unique_analysis_source], whatever weight
    the second statement carries. *)
Theorem source_bound_at_most_once (db : Db) :
  reachable db ->
  bound_once db
  /\ forall (a s i : positive) (r : AnalysisSource),
       analysis_sources db !! i = Some r -> binds a s r ->
       forall (w : Column Float8.float8) (reason : option string) (now : nat),
         insert_analysis_source db (Some a) (Some s) w reason now
         = inr UniqueViolation.
Proof.
  intros Hreach. split; [apply reachable_bound_once, Hreach|].
  intros a s i r Hi Hb w reason now. unfold insert_analysis_source.
  rewrite (unique_analysis_source_false _ _ a s i r); auto.
Qed.

Lemma source_bound_at_most_once_witness :
  reachable bound_db
  /\ insert_analysis_source bound_db (Some 1%positive) (Some 1%positive)
                            (Given (Some (Float8.nearest 2))) None 1
     = inr UniqueViolation.
Proof.
  split; [exact bound_db_reachable|].
  destruct (source_bound_at_most_once bound_db bound_db_reachable) as [_ H].
  apply (H 1%positive 1%positive 1%positive
           {| analysis_id := Some 1%positive; source_id := Some 1%positive;
              weight := Some Float8.one; inclusion_reason := None;
              added_at := 0 |}).
  - vm_compute. reflexivity.
  - split; reflexivity.
Defined.

(** The literals of the schema and of the statements below are doubles:
    [1.0] and [-1] are cast to themselves.  A number that is not a double
    is rounded, and one beyond the range of the type is refused. *)
Lemma of_numeric_literals :
  Float8.of_numeric 1.0 = Some Float8.one
  /\ Float8.to_Q Float8.one = Some 1
  /\ (exists f, Float8.of_numeric (-1) = Some f /\ Float8.to_Q f = Some (-1))
  /\ Float8.of_numeric (100000000000000001 # 100000000000000000)
     = Some Float8.one
  /\ Float8.of_numeric (inject_Z (10 ^ 400)) = None
  /\ Float8.of_numeric (1 # 10 ^ 400) = None.
Proof.
  split; [vm_compute; reflexivity|]. split; [vm_compute; reflexivity|].
  split; [eexists; split; vm_compute; reflexivity|].
  split; [vm_compute; reflexivity|].
  split; vm_compute; reflexivity.
Qed.

(** C9 as stated fails: [INSERT INTO analysis_sources (analysis_id,
    source_id, weight) VALUES (1, 1, -1)] is accepted and the weight -1
    is stored, so a reachable database holds a per-analysis weight that is
    not a strictly positive number. *)
Lemma explicit_weight_stored_not_positive :
  exists db' : Db,
    insert_values one_analysis_one_source
      (Some 1%positive) (Some 1%positive) (Given (Some (-1))) None 0
    = inl db'
    /\ reachable db'
    /\ exists (i : positive) (r : AnalysisSource),
         analysis_sources db' !! i = Some r
         /\ (weight r ≫= Float8.to_Q) = Some (-1)
         /\ ~ exists w : Q, (weight r ≫= Float8.to_Q) = Some w /\ 0 < w.
Proof.
  eexists. split; [vm_compute; reflexivity|]. split.
  - eapply rtc_r; [apply one_analysis_one_source_reachable|].
    apply (step_insert _ (Some 1%positive) (Some 1%positive)
             (Given (Some (Float8.nearest (-1)))) None 0%nat).
    vm_compute. reflexivity.
  - exists 1%positive. eexists. split; [vm_compute; reflexivity|].
    split; [vm_compute; reflexivity|].
    intros (w & Hw & Hpos). vm_compute in Hw. injection Hw as <-.
    revert Hpos. unfold Qlt. simpl. lia.
Qed.

(** Rounding keeps the sign. *)
Lemma binary_round_aux_sign (sx : bool) (mx ex : Z) (lx : location) :
  match binary_round_aux Float8.prec Float8.emax sx mx ex lx with
  | S754_zero s' | S754_infinity s' | S754_finite s' _ _ => s' = sx
  | S754_nan => True
  end.
Proof.
  unfold binary_round_aux.
  destruct (shr_fexp Float8.prec Float8.emax mx ex lx) as [mrs' e'].
  destruct (shr_fexp Float8.prec Float8.emax _ e' loc_Exact) as [mrs'' e''].
  destruct (shr_m mrs'') as [|m|m]; [reflexivity| |exact I].
  destruct (e'' <=? Float8.emax - Float8.prec)%Z; reflexivity.
Qed.

Lemma SFdiv_sign (sx : bool) (n d : positive) :
  match SFdiv Float8.prec Float8.emax
          (S754_finite sx n 0) (S754_finite false d 0) with
  | S754_zero s' | S754_infinity s' | S754_finite s' _ _ => s' = sx
  | S754_nan => True
  end.
Proof.
  unfold SFdiv.
  destruct (SFdiv_core_binary Float8.prec Float8.emax (Z.pos n) 0 (Z.pos d) 0)
    as [[mz ez] lz].
  replace (xorb sx false) with sx by (destruct sx; reflexivity).
  apply binary_round_aux_sign.
Qed.

Lemma to_Q_finite_sign (sx : bool) (m : positive) (e : Z) :
  exists x : Q,
    Float8.to_Q (S754_finite sx m e) = Some x
    /\ (if sx then x < 0 else 0 < x).
Proof.
  eexists. split; [reflexivity|].
  assert (Hp : 0 < 2 ^ e) by (apply Qpower_0_lt; reflexivity).
  assert (Hm : 0 < inject_Z (Z.pos m) * 2 ^ e)
    by (apply Qmult_lt_0_compat; [reflexivity|exact Hp]).
  destruct sx; simpl cond_Zopp; rewrite Qred_correct; [|exact Hm].
  change (inject_Z (Z.neg m)) with (- inject_Z (Z.pos m)).
  assert (E : - inject_Z (Z.pos m) * 2 ^ e == - (inject_Z (Z.pos m) * 2 ^ e))
    by ring.
  rewrite E. lra.
Qed.

(** The double a number is cast to has the sign of the number. *)
Lemma of_numeric_sign (q : Q) (f : Float8.float8) :
  Float8.of_numeric q = Some f ->
  exists x : Q,
    Float8.to_Q f = Some x /\ (0 < q <-> 0 < x) /\ (q < 0 <-> x < 0).
Proof.
  unfold Float8.of_numeric, Float8.nearest.
  destruct q as [[|n|n] d]; cbn [Qnum Qden].
  - intros [= <-]. exists 0. split; [reflexivity|]. unfold Qlt. simpl. lia.
  - pose proof (SFdiv_sign false n d) as Hs.
    destruct (SFdiv _ _ _ _) as [s'|s'| |s' m e]; try discriminate.
    intros [= <-]. subst s'.
    destruct (to_Q_finite_sign false m e) as (x & Hx & Hpos).
    exists x. split; [exact Hx|]. unfold Qlt in *. simpl in *. lia.
  - pose proof (SFdiv_sign true n d) as Hs.
    destruct (SFdiv _ _ _ _) as [s'|s'| |s' m e]; try discriminate.
    intros [= <-]. subst s'.
    destruct (to_Q_finite_sign true m e) as (x & Hx & Hneg).
    exists x. split; [exact Hx|]. unfold Qlt in *. simpl in *. lia.
Qed.

(** C9, amended: a source bound to an analysis without an explicit weight
    receives the weight 1.0; a weight given explicitly is stored as the
    double precision value it is cast to, which has the sign of the number
    given, be it positive, zero or negative, and NULL is stored when NULL
    is given.  The other rows are untouched. *)
Theorem bound_source_weight
    (db db' : Db) (a s : option positive) (w : Column Q)
    (reason : option string) (now : nat) :
  insert_values db a s w reason now = inl db' ->
  let i := fresh (dom (analysis_sources db)) in
  analysis_sources db !! i = None
  /\ (exists r : AnalysisSource,
        analysis_sources db' !! i = Some r
        /\ analysis_id r = a /\ source_id r = s
        /\ match w with
           | Omitted => weight r = Some Float8.one
           | Given None => weight r = None
           | Given (Some q) =>
               exists (f : Float8.float8) (x : Q),
                 weight r = Some f
                 /\ Float8.of_numeric q = Some f
                 /\ Float8.to_Q f = Some x
                 /\ (0 < q <-> 0 < x) /\ (q < 0 <-> x < 0)
           end)
  /\ forall j : positive,
       j <> i -> analysis_sources db' !! j = analysis_sources db !! j.
Proof.
  intros Hins i.
  assert (Hrow : exists w' : Column Float8.float8,
             insert_analysis_source db a s w' reason now = inl db'
             /\ match w with
                | Omitted => w' = Omitted
                | Given None => w' = Given None
                | Given (Some q) =>
                    exists f, w' = Given (Some f)
                              /\ Float8.of_numeric q = Some f
                end).
  { unfold insert_values in Hins. destruct w as [|[q|]]; [eauto| |eauto].
    destruct (Float8.of_numeric q) as [f|] eqn:Hq; [|discriminate].
    eauto. }
  destruct Hrow as (w' & Hins' & Hw').
  apply insert_analysis_source_inl in Hins' as (_ & _ & _ & ->).
  fold i. split; [apply fresh_key_unused|]. split.
  - eexists. split; [apply lookup_insert_eq|]. simpl.
    split; [reflexivity|]. split; [reflexivity|].
    destruct w as [|[q|]].
    + subst w'. reflexivity.
    + destruct Hw' as (f & -> & Hq).
      destruct (of_numeric_sign q f Hq) as (x & Hx & Hpos & Hneg).
      exists f, x. auto.
    + subst w'. reflexivity.
  - intros j Hj. apply lookup_insert_ne. congruence.
Qed.

Lemma bound_source_weight_witness :
  insert_values one_analysis_one_source
    (Some 1%positive) (Some 1%positive) Omitted None 0 = inl bound_db
  /\ exists r : AnalysisSource,
       analysis_sources bound_db
         !! fresh (dom (analysis_sources one_analysis_one_source)) = Some r
       /\ weight r = Some Float8.one.
Proof.
  assert (H : insert_values one_analysis_one_source
                (Some 1%positive) (Some 1%positive) Omitted None 0
              = inl bound_db) by (vm_compute; reflexivity).
  split; [exact H|].
  destruct (bound_source_weight _ _ _ _ Omitted _ _ H)
    as (_ & (r & Hr & _ & _ & Hw) & _).
  exists r. split; [exact Hr|exact Hw].
Defined.

End SourceSet.

(** ** The score history *)

Section ScoreHistory.

Import History HistoryOrder.
Local Open Scope Q_scope.

(** *** Ordering by stamp *)

Lemma insert_by_timestamp_Permutation rl l :
  Permutation (insert_by_timestamp rl l) (rl :: l).
Proof.
  induction l as [|x l IH]; simpl; [reflexivity|].
  destruct (_ <=? _)%nat; [reflexivity|].
  rewrite IH. apply perm_swap.
Qed.

Lemma order_by_timestamp_Permutation l :
  Permutation (order_by_timestamp l) l.
Proof.
  induction l as [|x l IH]; simpl; [reflexivity|].
  unfold order_by_timestamp in *. simpl.
  rewrite insert_by_timestamp_Permutation, IH. reflexivity.
Qed.

Lemma insert_by_timestamp_sorted rl l :
  StronglySorted not_after l ->
  StronglySorted not_after (insert_by_timestamp rl l).
Proof.
  induction 1 as [|x l Hl IH Hx]; simpl; [repeat constructor|].
  destruct (Nat.leb_spec (snapshot_timestamp rl) (snapshot_timestamp x)).
  - constructor; [constructor; assumption|].
    constructor; [exact H|].
    eapply Forall_impl; [exact Hx|]. unfold not_after. intros; simpl in *.
    lia.
  - constructor; [exact IH|].
    rewrite insert_by_timestamp_Permutation.
    constructor; [unfold not_after; lia|exact Hx].
Qed.

Lemma order_by_timestamp_StronglySorted l :
  StronglySorted not_after (order_by_timestamp l).
Proof.
  induction l as [|x l IH]; [constructor|].
  apply insert_by_timestamp_sorted, IH.
Qed.

Lemma insert_by_timestamp_snoc rl l e :
  (snapshot_timestamp rl < snapshot_timestamp e)%nat ->
  insert_by_timestamp rl (l ++ [e]) = insert_by_timestamp rl l ++ [e].
Proof.
  intros Hlt. induction l as [|x l IH]; simpl.
  - destruct (Nat.leb_spec (snapshot_timestamp rl) (snapshot_timestamp e));
      [reflexivity|lia].
  - destruct (_ <=? _)%nat; [reflexivity|]. rewrite IH. reflexivity.
Qed.

Lemma order_by_timestamp_snoc l e :
  Forall (fun rl => before rl e) l ->
  order_by_timestamp (l ++ [e]) = order_by_timestamp l ++ [e].
Proof.
  unfold order_by_timestamp.
  induction 1 as [|x l Hx _ IH]; [reflexivity|].
  simpl. rewrite IH. apply insert_by_timestamp_snoc, Hx.
Qed.

(** Entries with pairwise different stamps are in strict order once they
    are in order. *)
Lemma StronglySorted_before l :
  StronglySorted not_after l -> NoDup (map snapshot_timestamp l) ->
  StronglySorted before l.
Proof.
  induction 1 as [|x l Hl IH Hx]; intros Hnd; [constructor|].
  simpl in Hnd. apply NoDup_cons in Hnd as [Hx' Hnd].
  constructor; [apply IH, Hnd|].
  rewrite List.Forall_forall in Hx. apply List.Forall_forall. intros y Hy.
  specialize (Hx y Hy). unfold not_after in Hx. unfold before.
  assert (snapshot_timestamp x <> snapshot_timestamp y).
  { intros E. apply Hx'. rewrite E.
    apply list_elem_of_In, in_map, Hy. }
  lia.
Qed.

Lemma before_NoDup l :
  StronglySorted before l -> NoDup (map snapshot_timestamp l).
Proof.
  induction 1 as [|x l Hl IH Hx]; simpl; [constructor|].
  apply NoDup_cons. split; [|exact IH].
  intros Hin. apply list_elem_of_In, in_map_iff in Hin as (y & E & Hy).
  rewrite List.Forall_forall in Hx. specialize (Hx y Hy).
  unfold before in Hx. lia.
Qed.

(** A set of entries has one strict order at most. *)
Lemma StronglySorted_before_unique l1 l2 :
  StronglySorted before l1 -> StronglySorted before l2 ->
  Permutation l1 l2 -> l1 = l2.
Proof.
  intros H1. revert l2.
  induction H1 as [|x l1 Hl1 IH Hx]; intros l2 H2 Hp.
  - apply Permutation_nil_l in Hp. auto.
  - destruct H2 as [|y l2 Hl2 Hy].
    { apply Permutation_nil_r in Hp. discriminate. }
    assert (E : x = y).
    { assert (Hxin : x ∈ y :: l2) by (rewrite <- Hp; left).
      assert (Hyin : y ∈ x :: l1) by (rewrite Hp; left).
      apply elem_of_cons in Hxin as [E|Hxin]; [exact E|].
      apply elem_of_cons in Hyin as [E|Hyin]; [auto|].
      rewrite Forall_forall in Hx, Hy.
      specialize (Hx y Hyin). specialize (Hy x Hxin).
      unfold before in *. lia. }
    subst y. f_equal. apply IH; [exact Hl2|].
    eapply Permutation_cons_inv, Hp.
Qed.

Lemma order_by_timestamp_unique l l' :
  Permutation l l' ->
  StronglySorted before (order_by_timestamp l) ->
  order_by_timestamp l' = order_by_timestamp l.
Proof.
  intros Hp Hs. apply StronglySorted_before_unique; [|exact Hs|].
  - apply StronglySorted_before; [apply order_by_timestamp_StronglySorted|].
    assert (Hpm : Permutation (map snapshot_timestamp (order_by_timestamp l'))
                    (map snapshot_timestamp (order_by_timestamp l))).
    { apply Permutation_map.
      rewrite !order_by_timestamp_Permutation. symmetry. exact Hp. }
    rewrite Hpm. apply before_NoDup, Hs.
  - rewrite !order_by_timestamp_Permutation. symmetry. exact Hp.
Qed.

(** *** The descending order of the view *)

Lemma insert_by_timestamp_desc_Permutation row rows :
  Permutation (insert_by_timestamp_desc row rows) (row :: rows).
Proof.
  induction rows as [|x rows IH]; simpl; [reflexivity|].
  destruct (_ <=? _)%nat; [reflexivity|].
  rewrite IH. apply perm_swap.
Qed.

Lemma order_by_timestamp_desc_Permutation rows :
  Permutation (order_by_timestamp_desc rows) rows.
Proof.
  induction rows as [|x rows IH]; simpl; [reflexivity|].
  unfold order_by_timestamp_desc in *. simpl.
  rewrite insert_by_timestamp_desc_Permutation, IH. reflexivity.
Qed.

Lemma insert_by_timestamp_desc_sorted row rows :
  StronglySorted (fun x y => not_after (fst y) (fst x)) rows ->
  StronglySorted (fun x y => not_after (fst y) (fst x))
    (insert_by_timestamp_desc row rows).
Proof.
  induction 1 as [|x rows Hl IH Hx]; simpl; [repeat constructor|].
  destruct (Nat.leb_spec (snapshot_timestamp (fst x))
              (snapshot_timestamp (fst row))).
  - constructor; [constructor; assumption|].
    constructor; [exact H|].
    eapply Forall_impl; [exact Hx|]. unfold not_after. intros; simpl in *.
    lia.
  - constructor; [exact IH|].
    rewrite insert_by_timestamp_desc_Permutation.
    constructor; [unfold not_after; lia|exact Hx].
Qed.

Lemma order_by_timestamp_desc_sorted rows :
  StronglySorted (flip not_after) (map fst (order_by_timestamp_desc rows)).
Proof.
  apply (StronglySorted_fmap fst (fun x y => not_after (fst y) (fst x))).
  { auto. }
  induction rows as [|x rows IH]; [constructor|].
  apply insert_by_timestamp_desc_sorted, IH.
Qed.

Lemma insert_by_timestamp_desc_last row rows :
  Forall (fun x => before (fst row) (fst x)) rows ->
  insert_by_timestamp_desc row rows = rows ++ [row].
Proof.
  induction 1 as [|x rows Hx _ IH]; [reflexivity|]. simpl.
  unfold before in Hx.
  destruct (Nat.leb_spec (snapshot_timestamp (fst x))
              (snapshot_timestamp (fst row))); [lia|].
  rewrite IH. reflexivity.
Qed.

(** Rows in strict order of their stamps come out of the descending sort
    reversed. *)
Lemma order_by_timestamp_desc_rev rows :
  StronglySorted before (map fst rows) ->
  order_by_timestamp_desc rows = rev rows.
Proof.
  unfold order_by_timestamp_desc.
  induction rows as [|x rows IH]; intros Hs; [reflexivity|].
  simpl in *. apply StronglySorted_inv in Hs as [Hs Hx].
  rewrite IH by exact Hs. apply insert_by_timestamp_desc_last.
  apply List.Forall_forall. intros y Hy. apply in_rev in Hy.
  rewrite List.Forall_forall in Hx. apply Hx, in_map, Hy.
Qed.

(** *** The window function *)

Lemma lag_rigor_score_rows previous (l : list ReadinessLog) :
  map fst (lag_rigor_score previous l) = l.
Proof.
  revert previous. induction l as [|x l IH]; intros previous;
    [reflexivity|].
  simpl. rewrite IH. reflexivity.
Qed.

Lemma lag_rigor_score_adjacent previous (l : list ReadinessLog)
    (before after : list (ReadinessLog * option Q))
    (x y : ReadinessLog * option Q) :
  lag_rigor_score previous l = before ++ x :: y :: after ->
  snd y = Some (rigor_score (fst x)).
Proof.
  revert previous before. induction l as [|e l IH]; intros previous before H.
  - destruct before; discriminate.
  - simpl in H. destruct before as [|b before].
    + simpl in H. injection H as <- H. destruct l as [|e' l]; [discriminate|].
      simpl in H. injection H as <- _. reflexivity.
    + simpl in H. injection H as _ H. eapply IH, H.
Qed.

Lemma lag_rigor_score_head previous (l : list ReadinessLog)
    (x : ReadinessLog * option Q) :
  head (lag_rigor_score previous l) = Some x -> snd x = previous.
Proof.
  destruct l; simpl; [discriminate|]. intros [= <-]. reflexivity.
Qed.

(** The score beside a row of an ordered window is the initial one or
    the score of an entry that is not stamped later. *)
Lemma lag_rigor_score_older previous (l : list ReadinessLog) rl p :
  StronglySorted not_after l ->
  In (rl, Some p) (lag_rigor_score previous l) ->
  previous = Some p
  \/ exists e, In e l /\ rigor_score e = p /\ not_after e rl.
Proof.
  intros Hs. revert previous.
  induction Hs as [|x l Hl IH Hx]; intros previous Hin; [destruct Hin|].
  destruct Hin as [[= <- <-]|Hin]; [left; reflexivity|].
  right. destruct (IH _ Hin) as [[= <-]|(e & He & Hp & Hle)].
  - exists x. split; [left; reflexivity|]. split; [reflexivity|].
    assert (Hrl : In rl l).
    { rewrite <- (lag_rigor_score_rows (Some (rigor_score x)) l).
      apply (in_map fst) in Hin. exact Hin. }
    rewrite List.Forall_forall in Hx. apply Hx, Hrl.
  - exists e. split; [right; exact He|]. auto.
Qed.

(** In a window in strict order the view is the window reversed. *)
Lemma v_readiness_evolution_rev (a : positive) (logs : list ReadinessLog) :
  StronglySorted before (order_by_timestamp (partition_by a logs)) ->
  v_readiness_evolution a logs
  = rev (lag_rigor_score None (order_by_timestamp (partition_by a logs))).
Proof.
  intros Hs. unfold v_readiness_evolution.
  apply order_by_timestamp_desc_rev. rewrite lag_rigor_score_rows. exact Hs.
Qed.

Lemma StronglySorted_rev {A : Type} (R : A -> A -> Prop) (l : list A) :
  StronglySorted R l -> StronglySorted (flip R) (rev l).
Proof.
  induction 1 as [|x l Hl IH Hx]; simpl; [constructor|].
  apply StronglySorted_app. split; [|split].
  - intros y z Hy Hz. apply list_elem_of_singleton in Hz as ->.
    apply list_elem_of_In, in_rev, list_elem_of_In in Hy.
    rewrite Forall_forall in Hx. apply Hx, Hy.
  - exact IH.
  - repeat constructor.
Qed.

(** *** The deltas of a tracked table *)

Lemma deltas_follow_snoc (previous : option Q) (l : list ReadinessLog) rl :
  deltas_follow previous l ->
  delta_from_previous rl
  = (fun p => rigor_score rl - p)
      <$> match last l with
          | Some p => Some (rigor_score p)
          | None => previous
          end ->
  deltas_follow previous (l ++ [rl]).
Proof.
  revert previous. induction l as [|x l IH]; intros previous Hl Hrl.
  - simpl in *. auto.
  - destruct Hl as [Hx Hl]. simpl. split; [exact Hx|].
    apply IH; [exact Hl|]. rewrite Hrl.
    destruct l as [|y l']; [reflexivity|].
    change (last (x :: y :: l')) with (last (y :: l')).
    destruct (last (y :: l')) eqn:E; [reflexivity|].
    apply last_None in E. discriminate.
Qed.

Lemma lag_rigor_score_follow previous (l : list ReadinessLog) rl prev :
  deltas_follow previous l ->
  In (rl, prev) (lag_rigor_score previous l) ->
  delta_from_previous rl = (fun p => rigor_score rl - p) <$> prev.
Proof.
  revert previous. induction l as [|x l IH]; intros previous Hl Hin.
  - destruct Hin.
  - destruct Hl as [Hx Hl]. destruct Hin as [[= <- <-]|Hin]; [exact Hx|].
    eapply IH; eauto.
Qed.

Lemma deltas_follow_adjacent previous (l1 l2 : list ReadinessLog) p e :
  deltas_follow previous (l1 ++ p :: e :: l2) ->
  delta_from_previous e = Some (rigor_score e - rigor_score p).
Proof.
  revert previous. induction l1 as [|x l1 IH]; intros previous H.
  - destruct H as (_ & He & _). exact He.
  - destruct H as [_ H]. eapply IH, H.
Qed.

(** What serialised runs keep: the entries of an analysis, in the order of
    their stamps, are in strict order, and each carries the delta from the
    entry before it. *)
Lemma tracked_window (logs : list ReadinessLog) :
  tracked logs ->
  forall a : positive,
    StronglySorted before (order_by_timestamp (partition_by a logs))
    /\ deltas_follow None (order_by_timestamp (partition_by a logs)).
Proof.
  induction 1 as [|logs a' now s t Ht IH Hnow|logs logs' Ht IH Hp]; intros a.
  - split; [constructor|exact I].
  - destruct (IH a) as [Hs Hd].
    unfold append_log, partition_by. rewrite filter_app.
    rewrite filter_cons, filter_nil. simpl analysis_id.
    destruct (decide (a' = a)) as [->|Hne]; [|rewrite app_nil_r; auto].
    fold (partition_by a logs).
    set (e := {| analysis_id := a; snapshot_timestamp := now |}).
    assert (Hbefore : Forall (fun rl => before rl e) (partition_by a logs)).
    { apply List.Forall_forall. intros rl Hrl.
      apply list_elem_of_In, list_elem_of_filter in Hrl as [Ha Hrl].
      rewrite Forall_forall in Hnow. exact (Hnow rl Hrl Ha). }
    rewrite order_by_timestamp_snoc by exact Hbefore. split.
    + apply StronglySorted_app. split; [|split; [exact Hs|]].
      * intros x y Hx Hy. apply list_elem_of_singleton in Hy as ->.
        rewrite order_by_timestamp_Permutation in Hx.
        rewrite Forall_forall in Hbefore. auto.
      * repeat constructor.
    + apply deltas_follow_snoc; [exact Hd|]. subst e. simpl.
      unfold latest_entry.
      destruct (last (order_by_timestamp (partition_by a logs)));
        reflexivity.
  - destruct (IH a) as [Hs Hd].
    assert (E : order_by_timestamp (partition_by a logs')
                = order_by_timestamp (partition_by a logs)).
    { apply order_by_timestamp_unique; [|exact Hs].
      unfold partition_by. apply filter_Permutation, Hp. }
    rewrite E. auto.
Qed.

Lemma three_runs_tracked : tracked three_runs_table.
Proof.
  apply (tracked_permutation three_runs); [|apply Permutation_rev].
  unfold three_runs.
  apply tracked_append; [apply tracked_append; [apply tracked_append|]|].
  - apply tracked_nil.
  - constructor.
  - repeat constructor. simpl. discriminate.
  - repeat constructor; simpl; intros; try discriminate; lia.
Qed.

(** Two entries of a list in strict descending order with no entry
    between them are neighbours. *)
Lemma neighbours_of_descending (l : list ReadinessLog) earlier later :
  StronglySorted (flip before) l ->
  In earlier l -> In later l -> before earlier later ->
  (forall x, In x l -> ~ (before earlier x /\ before x later)) ->
  exists above below, l = above ++ later :: earlier :: below.
Proof.
  intros Hs He Hl Hlt Hbetween.
  apply in_split in Hl as (above & rest & ->).
  apply StronglySorted_app in Hs as (Hab & _ & Hs).
  apply StronglySorted_inv in Hs as [Hrest Hlater].
  assert (Her : In earlier rest).
  { apply in_app_or in He as [He|[->|He]]; [| |exact He].
    - specialize (Hab earlier later). unfold flip, before in Hab, Hlt.
      assert (snapshot_timestamp later < snapshot_timestamp earlier)%nat.
      { apply Hab; [apply list_elem_of_In, He|left]. }
      lia.
    - unfold before in Hlt. lia. }
  destruct rest as [|y rest]; [destruct Her|].
  exists above, rest. f_equal. f_equal. f_equal.
  destruct Her as [->|Her]; [reflexivity|]. exfalso.
  apply StronglySorted_inv in Hrest as [_ Hy].
  rewrite List.Forall_forall in Hy, Hlater.
  apply (Hbetween y).
  - apply in_or_app. right. right. left. reflexivity.
  - split; [apply (Hy earlier Her)|apply (Hlater y); left; reflexivity].
Qed.

(** C5: in a table written by runs that are serialised per analysis,
    whatever the order of its rows, the evolution view lists the entries
    of an analysis latest first, no two with the same stamp, each with the
    score of the entry before it in time; the delta of an entry is its
    score minus that previous score.  So for consecutive entries of the
    analysis the later entry's delta is its composite score minus the
    composite score of the immediately preceding one, and the first entry
    has the delta NULL. *)
Theorem delta_is_score_minus_previous
    (logs : list ReadinessLog) (a : positive) :
  tracked logs ->
  let view := v_readiness_evolution a logs in
  Permutation (map fst view) (partition_by a logs)
  /\ StronglySorted (flip before) (map fst view)
  /\ (forall (rl : ReadinessLog) (previous_score : option Q),
        In (rl, previous_score) view ->
        delta_from_previous rl
        = (fun p => rigor_score rl - p) <$> previous_score)
  /\ (forall earlier later : ReadinessLog,
        In earlier (partition_by a logs) ->
        In later (partition_by a logs) ->
        before earlier later ->
        (forall x : ReadinessLog,
           In x (partition_by a logs) ->
           ~ (before earlier x /\ before x later)) ->
        delta_from_previous later
        = Some (rigor_score later - rigor_score earlier))
  /\ (forall first : ReadinessLog,
        In first (partition_by a logs) ->
        (forall x : ReadinessLog,
           In x (partition_by a logs) -> ~ before x first) ->
        delta_from_previous first = None).
Proof.
  intros Ht view. subst view.
  destruct (tracked_window logs Ht a) as [Hs Hd].
  rewrite (v_readiness_evolution_rev a logs Hs).
  set (window := order_by_timestamp (partition_by a logs)) in *.
  assert (Hw : Permutation window (partition_by a logs))
    by apply order_by_timestamp_Permutation.
  assert (Hin : forall x, In x (partition_by a logs) <-> In x window).
  { intros x. rewrite <- !list_elem_of_In, Hw. reflexivity. }
  rewrite map_rev, lag_rigor_score_rows.
  split; [|split; [|split; [|split]]].
  - rewrite <- Permutation_rev. exact Hw.
  - apply StronglySorted_rev, Hs.
  - intros rl prev Hrow. apply in_rev in Hrow.
    eapply lag_rigor_score_follow; eauto.
  - intros earlier later He Hl Hlt Hbetween.
    destruct (neighbours_of_descending (rev window) earlier later)
      as (above & below & E).
    + apply StronglySorted_rev, Hs.
    + apply in_rev. rewrite rev_involutive. apply Hin, He.
    + apply in_rev. rewrite rev_involutive. apply Hin, Hl.
    + exact Hlt.
    + intros x Hx. apply Hbetween, Hin, in_rev, Hx.
    + apply (f_equal (@rev _)) in E. rewrite rev_involutive in E.
      rewrite rev_app_distr in E. simpl in E.
      rewrite <- !app_assoc in E. simpl in E.
      rewrite E in Hd. eapply deltas_follow_adjacent, Hd.
  - intros first Hf Hnone.
    destruct window as [|x window'] eqn:E.
    { apply Hin in Hf. destruct Hf. }
    destruct Hd as [Hx _]. simpl in Hx.
    assert (first = x); [|subst; exact Hx].
    apply Hin in Hf. destruct Hf as [->|Hf]; [reflexivity|]. exfalso.
    apply (Hnone x); [apply Hin; left; reflexivity|].
    apply StronglySorted_inv in Hs as [_ Hs].
    rewrite List.Forall_forall in Hs. apply Hs, Hf.
Qed.

Lemma delta_is_score_minus_previous_witness :
  tracked three_runs_table
  /\ map (fun row => (snapshot_timestamp (fst row),
                      delta_from_previous (fst row), snd row))
         (v_readiness_evolution 1%positive three_runs_table)
     = [(12%nat, Some (65 - 50), Some 50); (10%nat, None, None)]
  /\ forall (rl : ReadinessLog) (previous_score : option Q),
       In (rl, previous_score)
          (v_readiness_evolution 1%positive three_runs_table) ->
       delta_from_previous rl
       = (fun p => rigor_score rl - p) <$> previous_score.
Proof.
  split; [exact three_runs_tracked|]. split; [reflexivity|].
  apply (delta_is_score_minus_previous three_runs_table 1%positive
           three_runs_tracked).
Defined.

End ScoreHistory.

(** ** Readiness checks *)

Section ReadinessChecks.

Import Readiness.

Lemma record_check_lookup checks analysis c v now (id : positive) row :
  record_check checks analysis c v now !! id = Some row <->
  checks !! id = Some row
  \/ (checks !! id = None
      /\ id = fresh (dom checks)
      /\ row = {| analysis_id := analysis;
                  criterion_name := name c;
                  criterion_category := category c;
                  status := passed v;
                  confidence_score := confidence v;
                  reasoning := rationale v;
                  evidence_source_ids := evidence v;
                  evidence_snippets := snippets v;
                  checked_at := now |}).
Proof.
  unfold record_check.
  assert (Hfresh : checks !! fresh (dom checks) = None)
    by apply not_elem_of_dom, is_fresh.
  rewrite lookup_insert_Some. split.
  - intros [[<- <-]|[_ H]]; [right|left]; auto.
  - intros [H|(_ & -> & ->)]; [right|left]; auto.
    split; [|exact H]. intros <-. congruence.
Qed.

Lemma record_check_size checks analysis c v now :
  size (record_check checks analysis c v now) = S (size checks).
Proof.
  unfold record_check. apply map_size_insert_None.
  apply not_elem_of_dom, is_fresh.
Qed.

(** C8: an evaluation run only adds ReadinessCheck records.  Every check
    recorded before the run, by an earlier run or otherwise, is found
    after it under the same key with all its fields as they were; the run
    adds one record per required criterion, and every record that was not
    there before belongs to the evaluated analysis, is stamped with the
    time of the run and carries the oracle's verdict on a required
    criterion. *)
Theorem rerun_keeps_previous_checks
    (oracle : Criterion -> Verdict) (checks : gmap positive ReadinessCheck)
    (analysis : positive) (pack : PromptPack) (now : nat) :
  let checks' := evaluateReadiness oracle checks analysis pack now in
  (forall (id : positive) (row : ReadinessCheck),
     checks !! id = Some row -> checks' !! id = Some row)
  /\ size checks' = size checks + length (required_criteria pack)
  /\ (forall (id : positive) (row : ReadinessCheck),
        checks' !! id = Some row -> checks !! id = None ->
        analysis_id row = analysis
        /\ checked_at row = now
        /\ exists c : Criterion,
             In c (required_criteria pack)
             /\ criterion_name row = name c
             /\ status row = passed (oracle c)).
Proof.
  unfold evaluateReadiness. generalize (required_criteria pack) as criteria.
  intros criteria. revert checks.
  induction criteria as [|c criteria IH]; intros checks; simpl.
  - split; [auto|]. split; [lia|]. intros id row H1 H2. congruence.
  - destruct (IH (record_check checks analysis c (oracle c) now))
      as (Hkeep & Hsize & Hnew).
    split; [|split].
    + intros id row H. apply Hkeep, record_check_lookup. left. exact H.
    + rewrite Hsize, record_check_size. lia.
    + intros id row H Hnone.
      destruct (record_check checks analysis c (oracle c) now !! id)
        as [row'|] eqn:E.
      * pose proof (Hkeep id row' E) as H'. rewrite H in H'.
        injection H' as <-.
        apply record_check_lookup in E as [E|(_ & _ & ->)]; [congruence|].
        simpl. repeat split. exists c. simpl. auto.
      * destruct (Hnew id row H E) as (Ha & Ht & c' & Hc' & Hn & Hs).
        repeat split; auto. exists c'. simpl. auto.
Qed.

(** The row an evaluation run records for a criterion. *)
Lemma record_check_fresh checks analysis c v now :
  exists (id : positive) (row : ReadinessCheck),
    checks !! id = None
    /\ record_check checks analysis c v now = <[id := row]> checks
    /\ analysis_id row = analysis /\ criterion_name row = name c
    /\ status row = passed v /\ checked_at row = now.
Proof.
  exists (fresh (dom checks)). eexists. split; [|split; [reflexivity|]].
  - apply not_elem_of_dom, is_fresh.
  - simpl. auto.
Qed.

(** The table after an evaluation run: the rows it held, under their keys,
    and one row per required criterion, stamped with the time of the run
    and carrying the verdict of the oracle. *)
Lemma evaluateReadiness_rows
    (oracle : Criterion -> Verdict) (checks : gmap positive ReadinessCheck)
    (analysis : positive) (pack : PromptPack) (now : nat) :
  let checks' := evaluateReadiness oracle checks analysis pack now in
  (forall (id : positive) (row : ReadinessCheck),
     checks !! id = Some row -> checks' !! id = Some row)
  /\ (forall (id : positive) (row : ReadinessCheck),
        checks' !! id = Some row -> checks !! id = None ->
        exists c : Criterion,
          In c (required_criteria pack)
          /\ analysis_id row = analysis /\ criterion_name row = name c
          /\ status row = passed (oracle c) /\ checked_at row = now)
  /\ (forall c : Criterion,
        In c (required_criteria pack) ->
        exists (id : positive) (row : ReadinessCheck),
          checks' !! id = Some row /\ checks !! id = None
          /\ analysis_id row = analysis /\ criterion_name row = name c
          /\ status row = passed (oracle c) /\ checked_at row = now).
Proof.
  unfold evaluateReadiness. generalize (required_criteria pack) as criteria.
  intros criteria. revert checks.
  induction criteria as [|c criteria IH]; intros checks; simpl.
  - split; [auto|]. split; [congruence|]. intros c [].
  - destruct (record_check_fresh checks analysis c (oracle c) now)
      as (k & r & Hk & E & Hr).
    destruct (IH (record_check checks analysis c (oracle c) now))
      as (Hkeep & Hnew & Hall).
    rewrite E in Hkeep, Hnew, Hall. rewrite E. clear E.
    split; [|split].
    + intros id row H. apply Hkeep. rewrite lookup_insert_ne; [exact H|].
      congruence.
    + intros id row H Hnone.
      destruct (decide (id = k)) as [->|Hne].
      * exists c. pose proof (Hkeep k r (lookup_insert_eq _ _ _)) as H'.
        rewrite H in H'. injection H' as ->. split; [left; reflexivity|].
        exact Hr.
      * destruct (Hnew id row H) as (c' & Hc' & Hrest).
        { rewrite lookup_insert_ne by congruence. exact Hnone. }
        exists c'. split; [right; exact Hc'|exact Hrest].
    + intros c' [<-|Hc'].
      * exists k, r. split; [apply Hkeep, lookup_insert_eq|].
        split; [exact Hk|exact Hr].
      * destruct (Hall c' Hc') as (id & row & H & Hnone & Hrest).
        exists id, row. split; [exact H|]. split; [|exact Hrest].
        apply lookup_insert_None in Hnone as [Hnone _]. exact Hnone.
Qed.

Lemma forallb_filter_length {A : Type} (f : A -> bool) (l : list A) :
  forallb f l = true <-> length (filter (fun x => f x = true) l) = length l.
Proof.
  induction l as [|x l IH]; simpl; [tauto|].
  rewrite filter_cons. pose proof (length_filter (fun x => f x = true) l).
  destruct (decide (f x = true)) as [E|E].
  - rewrite E. simpl. rewrite IH. lia.
  - apply not_true_is_false in E. rewrite E. simpl.
    split; [discriminate|lia].
Qed.

Lemma filter_complement_length {A : Type} (f : A -> bool) (l : list A) :
  length (filter (fun x => f x = true) l)
  + length (filter (fun x => f x = false) l) = length l.
Proof.
  induction l as [|x l IH]; simpl; [reflexivity|].
  rewrite !filter_cons.
  destruct (decide (f x = true)) as [E|E];
    destruct (decide (f x = false)) as [E'|E']; simpl; try lia.
  - congruence.
  - destruct (f x); congruence.
Qed.

(** C3: an evaluation run, made after the checks the table holds for the
    analysis, reports is_ready = true exactly when every required
    criterion of the bound prompt pack has its latest ReadinessCheck
    passed.  That is the case exactly when the checks passed are all the
    checks: the readiness percentage of a ready analysis is 100, and no
    percentage below 100 makes the analysis ready. *)
Theorem ready_iff_latest_checks_passed
    (oracle : Criterion -> Verdict) (checks : gmap positive ReadinessCheck)
    (analysis : positive) (pack : PromptPack) (now : nat) :
  (forall (id : positive) (row : ReadinessCheck),
     checks !! id = Some row -> analysis_id row = analysis ->
     checked_at row < now) ->
  let checks' := evaluateReadiness oracle checks analysis pack now in
  let r := readiness_response oracle pack in
  (is_ready r = true
   <-> forall c : Criterion,
         In c (required_criteria pack) ->
         latest_check_passed checks' analysis (name c))
  /\ (is_ready r = true <-> checks_passed r = checks_total r)
  /\ checks_passed r + length (missing_criteria r) = checks_total r
  /\ (forall p : Q,
        readiness_score r = Py.Ok p ->
        (is_ready r = true -> (p == 100)%Q)
        /\ ((p < 100)%Q -> is_ready r = false)).
Proof.
  intros Hold checks' r.
  destruct (evaluateReadiness_rows oracle checks analysis pack now)
    as (Hkeep & Hnew & Hall). fold checks' in Hkeep, Hnew, Hall.
  assert (Hstamp : forall id row,
            checks' !! id = Some row -> analysis_id row = analysis ->
            checked_at row <= now
            /\ (checked_at row = now ->
                exists c, In c (required_criteria pack)
                          /\ criterion_name row = name c
                          /\ status row = passed (oracle c))).
  { intros id row H Ha. destruct (checks !! id) as [row0|] eqn:E.
    - pose proof (Hkeep id row0 E) as H'. rewrite H in H'.
      injection H' as <-. specialize (Hold id row E Ha). lia.
    - destruct (Hnew id row H E) as (c & Hc & _ & Hn & Hs & Ht).
      split; [lia|]. eauto. }
  assert (Hcount : is_ready r = true <-> checks_passed r = checks_total r).
  { subst r. simpl. apply forallb_filter_length. }
  split; [|split; [exact Hcount|split]].
  - subst r. simpl. rewrite forallb_forall. split.
    + intros Hpass c Hc.
      destruct (Hall c Hc) as (id & row & H & _ & Ha & Hn & Hs & Ht).
      split.
      * exists row. split; [eauto|]. split; [split; assumption|].
        intros id' row' H' [Ha' _]. rewrite Ht.
        apply (Hstamp id' row' H' Ha').
      * intros row' ((id' & H') & [Ha' Hn'] & Hlatest).
        specialize (Hlatest id row H (conj Ha Hn)). rewrite Ht in Hlatest.
        destruct (Hstamp id' row' H' Ha') as [Hle Hrun].
        destruct Hrun as (c' & Hc' & _ & Hs'); [lia|].
        rewrite Hs'. apply Hpass, Hc'.
    + intros Hlatest c Hc.
      destruct (Hlatest c Hc) as [_ Hpassed].
      destruct (Hall c Hc) as (id & row & H & _ & Ha & Hn & Hs & Ht).
      rewrite <- Hs. apply Hpassed.
      split; [eauto|]. split; [split; assumption|].
      intros id' row' H' [Ha' _]. rewrite Ht.
      apply (Hstamp id' row' H' Ha').
  - subst r. simpl. rewrite length_map. apply filter_complement_length.
  - intros p Hp.
    assert (Hq : checks_total r <> 0
                 /\ p = (Py.of_nat (checks_passed r)
                         / Py.of_nat (checks_total r) * 100)%Q).
    { subst r. simpl in *. unfold mbind, result_bind, Py.bind, Py.truediv in Hp.
      rewrite of_nat_zero_test in Hp.
      destruct (length (required_criteria pack)) as [|n]; simpl in Hp;
        [discriminate|].
      injection Hp as <-. split; [lia|reflexivity]. }
    destruct Hq as [Hne ->].
    assert (Hle : checks_passed r <= checks_total r).
    { subst r. simpl. apply length_filter. }
    remember (checks_total r) as t eqn:Et.
    remember (checks_passed r) as k eqn:Ek.
    assert (Ht : ~ (Py.of_nat t == 0)%Q).
    { unfold Py.of_nat, Qeq. simpl. lia. }
    assert (E : (Py.of_nat t / Py.of_nat t * 100 == 100)%Q)
      by (field; exact Ht).
    split.
    + intros Hr. apply Hcount in Hr. rewrite Hr. exact E.
    + intros Hlt. destruct (is_ready r) eqn:Hr; [|reflexivity].
      assert (Hk : k = t) by (apply Hcount; reflexivity).
      rewrite Hk, E in Hlt. revert Hlt. unfold Qlt. simpl. lia.
Qed.

Lemma ready_iff_latest_checks_passed_witness :
  (forall (id : positive) (row : ReadinessCheck),
     earlier_run !! id = Some row -> analysis_id row = 1%positive ->
     checked_at row < 2)
  /\ is_ready (readiness_response strict_oracle v1_0_STRAT) = false
  /\ is_ready (readiness_response passing_oracle v1_0_STRAT) = true
  /\ forall c : Criterion,
       In c (required_criteria v1_0_STRAT) ->
       latest_check_passed
         (evaluateReadiness passing_oracle earlier_run 1%positive
            v1_0_STRAT 2)
         1%positive (name c).
Proof.
  assert (H : forall (id : positive) (row : ReadinessCheck),
            earlier_run !! id = Some row -> analysis_id row = 1%positive ->
            checked_at row < 2).
  { intros id row Hrow _.
    destruct (evaluateReadiness_rows strict_oracle ∅ 1%positive v1_0_STRAT 1)
      as (_ & Hnew & _).
    destruct (Hnew id row Hrow (lookup_empty id)) as (c & _ & _ & _ & _ & ->).
    lia. }
  split; [exact H|]. split; [reflexivity|]. split; [reflexivity|].
  apply (ready_iff_latest_checks_passed passing_oracle earlier_run
           1%positive v1_0_STRAT 2 H).
  reflexivity.
Defined.

End ReadinessChecks.

(** * Further properties of the scoring formulas *)

Section ScoreProperties.

Import Sources RigorScore SourceUpdates.
Local Open Scope Q_scope.

Lemma truediv_Ok (a b q : Q) :
  Py.truediv a b = Py.Ok q <-> ~ b == 0 /\ q = a / b.
Proof.
  unfold Py.truediv. destruct (Qeq_bool b 0) eqn:E.
  - apply Qeq_bool_iff in E. split; [discriminate|]. intros [H _]. tauto.
  - split.
    + intros [= <-]. split; [|reflexivity].
      intros H. apply Qeq_bool_iff in H. congruence.
    + intros [_ ->]. reflexivity.
Qed.

Lemma of_nat_eq_0 (n : nat) : Py.of_nat n == 0 <-> n = 0%nat.
Proof.
  unfold Py.of_nat, Qeq. simpl. lia.
Qed.

Lemma of_nat_pos (n : nat) : n <> 0%nat -> 0 < Py.of_nat n.
Proof.
  unfold Py.of_nat, Qlt. simpl. lia.
Qed.

Lemma V_Ok (sources : list Source) (v : Q) :
  V sources = Py.Ok v <->
  sources <> []
  /\ v = Py.sum (map source_factor sources)
         / Py.of_nat (length sources) * 100.
Proof.
  unfold V, SourceCount, mbind, result_bind, Py.bind.
  destruct (Py.truediv _ _) as [q|] eqn:E.
  - apply truediv_Ok in E as [Hn ->]. rewrite of_nat_eq_0 in Hn.
    split.
    + intros [= <-]. split; [|reflexivity].
      intros ->. apply Hn. reflexivity.
    + intros [_ ->]. reflexivity.
  - split; [discriminate|]. intros [Hne _]. exfalso.
    unfold Py.truediv in E. rewrite of_nat_zero_test in E.
    destruct sources; [congruence|discriminate].
Qed.

Lemma L_Ok (qm : Q) (sources : list Source) (l : Q) :
  L qm sources = Py.Ok l <->
  TotalWords sources <> 0%nat
  /\ l = Qmin 100 (Py.of_nat (KeywordCount sources)
                   / Py.of_nat (TotalWords sources) * 1000 * qm).
Proof.
  unfold L, mbind, result_bind, Py.bind, Py.truediv.
  rewrite of_nat_zero_test.
  destruct (Nat.eqb_spec (TotalWords sources) 0) as [E|E].
  - split; [discriminate|]. intros [H _]. congruence.
  - split.
    + intros [= <-]. auto.
    + intros [_ ->]. reflexivity.
Qed.

(** A scoring run returns scores exactly when the source set is not empty
    and its sources hold at least one word; otherwise it raises. *)
Theorem score_succeeds_iff
    (qm : Q) (sources : list Source) (conflicts : list Conflict) :
  ((exists r, score qm sources conflicts = Py.Ok r)
   <-> sources <> [] /\ TotalWords sources <> 0%nat)
  /\ ((exists x, calculate_rigor_score qm sources conflicts = Py.Ok x)
      <-> sources <> [] /\ TotalWords sources <> 0%nat)
  /\ (score qm sources conflicts = Py.ZeroDivisionError
      <-> sources = [] \/ TotalWords sources = 0%nat).
Proof.
  assert (HV : forall v, V sources = Py.Ok v -> sources <> [])
    by (intros v Hv; apply V_Ok in Hv; tauto).
  assert (HL : forall l, L qm sources = Py.Ok l -> TotalWords sources <> 0%nat)
    by (intros l Hl; apply L_Ok in Hl; tauto).
  assert (HV' : sources <> [] -> exists v, V sources = Py.Ok v)
    by (intros H; eexists; apply V_Ok; eauto).
  assert (HL' : TotalWords sources <> 0%nat ->
                exists l, L qm sources = Py.Ok l)
    by (intros H; eexists; apply L_Ok; eauto).
  assert (A : (exists v, V sources = Py.Ok v) <-> sources <> [])
    by (split; [intros [v Hv]; eauto|auto]).
  assert (B : (exists l, L qm sources = Py.Ok l)
              <-> TotalWords sources <> 0%nat)
    by (split; [intros [l Hl]; eauto|auto]).
  assert (A0 : sources = [] \/ sources <> [])
    by (destruct sources; [left; reflexivity|right; discriminate]).
  assert (B0 : TotalWords sources = 0%nat \/ TotalWords sources <> 0%nat)
    by lia.
  clear HV HL HV' HL'.
  unfold score, calculate_rigor_score, mbind, result_bind, Py.bind.
  destruct (V sources) as [v|]; destruct (L qm sources) as [l|];
    first [ assert (A1 : sources <> []) by (apply A; eauto)
          | assert (A1 : sources = [])
              by (destruct A0 as [|A0]; [assumption|];
                  apply A in A0 as [? ?]; discriminate) ];
    first [ assert (B1 : TotalWords sources <> 0%nat) by (apply B; eauto)
          | assert (B1 : TotalWords sources = 0%nat)
              by (destruct B0 as [|B0]; [assumption|];
                  apply B in B0 as [? ?]; discriminate) ];
    clear A B A0 B0;
    (split; [|split]); split;
    try (intros [? ?]); try (intros [? | ?]); try (intros [? ?]);
    try intros ?; try discriminate; try congruence; eauto.
Qed.

Lemma nat_sum_Permutation (l l' : list nat) :
  Permutation l l' -> fold_right Nat.add 0%nat l = fold_right Nat.add 0%nat l'.
Proof.
  induction 1; simpl; lia.
Qed.

(** The logic score does not depend on the order in which the sources are
    listed, and neither does whether a scoring run succeeds: the source
    count, the keyword count and the word count are sums of integers.
    (The veracity and the conflict score are sums of fractions, whose last
    digits may depend on the order; nothing is said of them here.) *)
Theorem logic_score_order_independent
    (qm : Q) (sources sources' : list Source) (conflicts : list Conflict) :
  Permutation sources sources' ->
  SourceCount sources' = SourceCount sources
  /\ KeywordCount sources' = KeywordCount sources
  /\ TotalWords sources' = TotalWords sources
  /\ L qm sources' = L qm sources
  /\ ((exists r, score qm sources' conflicts = Py.Ok r)
      <-> exists r, score qm sources conflicts = Py.Ok r).
Proof.
  intros Hs.
  assert (Hn : SourceCount sources' = SourceCount sources)
    by (unfold SourceCount; symmetry; apply Permutation_length, Hs).
  assert (Hk : KeywordCount sources' = KeywordCount sources).
  { unfold KeywordCount. symmetry. apply nat_sum_Permutation.
    apply Permutation_map, Hs. }
  assert (Ht : TotalWords sources' = TotalWords sources).
  { unfold TotalWords. symmetry. apply nat_sum_Permutation.
    apply Permutation_map, Hs. }
  assert (HL : L qm sources' = L qm sources)
    by (unfold L; rewrite Hk, Ht; reflexivity).
  repeat (split; [assumption|]).
  assert (HV : (exists v, V sources' = Py.Ok v)
               <-> exists v, V sources = Py.Ok v).
  { split; intros [v Hv]; apply V_Ok in Hv as [Hne _]; eexists;
      apply V_Ok; (split; [|reflexivity]); intros ->.
    - apply Permutation_nil in Hs. congruence.
    - apply Permutation_sym, Permutation_nil in Hs. congruence. }
  unfold score, mbind, result_bind, Py.bind. rewrite HL.
  destruct (V sources') as [v'|]; destruct (V sources) as [v|];
    destruct (L qm sources) as [l|];
    split; intros [r Hr]; try discriminate; eauto.
  - destruct (proj1 HV) as [? ?]; [eauto|discriminate].
  - destruct (proj2 HV) as [? ?]; [eauto|discriminate].
Qed.

Lemma logic_score_order_independent_witness :
  L 1 [old_draft_transcript; authoritative_final_pdf_today]
  = L 1 [authoritative_final_pdf_today; old_draft_transcript].
Proof.
  apply (logic_score_order_independent 1
           [authoritative_final_pdf_today; old_draft_transcript]
           [old_draft_transcript; authoritative_final_pdf_today] []).
  apply perm_swap.
Defined.

Lemma sum_app (l1 l2 : list Q) : Py.sum (l1 ++ l2) == Py.sum l1 + Py.sum l2.
Proof.
  induction l1 as [|x l1 IH]; simpl; [ring|]. rewrite IH. ring.
Qed.

Lemma source_factor_pos (s : Source) : 0 < source_factor s.
Proof.
  unfold source_factor.
  pose proof (authority_weight_bounds s) as [Ha1 Ha2].
  pose proof (source_type_weight_bounds (source_type s)) as [Ht1 Ht2].
  pose proof (status_weight_bounds (status s)) as [Hs1 Hs2].
  pose proof (recency_boost_bounds (document_age_days s)) as [Hr1 Hr2].
  set (a := authority_weight s) in *.
  set (t := source_type_weight (source_type s)) in *.
  set (w := status_weight (status s)) in *.
  set (r := recency_boost (document_age_days s)) in *.
  assert (H1 : 0 < a * t) by nra.
  assert (H2 : 0 < a * t * w) by nra.
  nra.
Qed.

(** Marking a source as authoritative never lowers its factor, nor the
    veracity score of a source set the source belongs to, and raises both
    when the source was not authoritative. *)
Theorem mark_authoritative_raises_veracity
    (before after : list Source) (s : Source) (v : Q) :
  V (before ++ s :: after) = Py.Ok v ->
  source_factor s <= source_factor (mark_authoritative s)
  /\ (is_authoritative s = false ->
      source_factor s < source_factor (mark_authoritative s))
  /\ exists v' : Q,
       V (before ++ mark_authoritative s :: after) = Py.Ok v'
       /\ v <= v'
       /\ (is_authoritative s = false -> v < v').
Proof.
  intros Hv.
  assert (Hf : source_factor (mark_authoritative s)
               == (if is_authoritative s then 1 else 1.5) * source_factor s).
  { unfold source_factor, authority_weight. simpl.
    destruct (is_authoritative s); ring. }
  pose proof (source_factor_pos s) as Hs.
  split; [rewrite Hf; destruct (is_authoritative s); lra|].
  split; [intros E; rewrite Hf, E; lra|].
  apply V_Ok in Hv as [_ ->].
  eexists. split; [apply V_Ok; split; [|reflexivity]|].
  { destruct before; discriminate. }
  rewrite !length_app. simpl length.
  set (n := Py.of_nat (length before + S (length after))).
  assert (Hn : 0 < n) by (apply of_nat_pos; lia).
  rewrite !map_app, !sum_app. simpl. rewrite Hf.
  set (f := source_factor s) in *.
  set (a := Py.sum (map source_factor before)).
  set (b := Py.sum (map source_factor after)).
  assert (Hd : forall x y, x <= y -> x / n * 100 <= y / n * 100).
  { intros x y Hxy. apply Qmult_le_compat_r; [|lra].
    apply Qmult_le_compat_r; [exact Hxy|].
    apply Qlt_le_weak, Qinv_lt_0_compat, Hn. }
  assert (Hd' : forall x y, x < y -> x / n * 100 < y / n * 100).
  { intros x y Hxy. apply Qmult_lt_compat_r; [lra|].
    apply Qmult_lt_compat_r; [apply Qinv_lt_0_compat, Hn|exact Hxy]. }
  split.
  - apply Hd. destruct (is_authoritative s); lra.
  - intros ->. apply Hd'. lra.
Qed.

Lemma mark_authoritative_raises_veracity_witness :
  exists v v' : Q,
    V [authoritative_final_pdf_today; old_draft_transcript] = Py.Ok v
    /\ V [authoritative_final_pdf_today;
           mark_authoritative old_draft_transcript] = Py.Ok v'
    /\ v < v'.
Proof.
  destruct (mark_authoritative_raises_veracity
              [authoritative_final_pdf_today] [] old_draft_transcript _
              eq_refl) as (_ & _ & v' & Hv' & _ & Hlt).
  eexists. exists v'. split; [reflexivity|]. split; [exact Hv'|].
  apply Hlt. reflexivity.
Defined.

(** The conflict score starts at 100 and loses the severity of every
    conflict until it reaches the floor 0: while the severities sum to at
    most 100 it is 100 minus their sum, from 100 on it is 0, and a further
    conflict never raises it. *)
Theorem conflict_score_decreases_to_floor
    (c : Conflict) (conflicts : list Conflict) :
  0 <= ConflictSeverity c ->
  C (c :: conflicts) <= C conflicts
  /\ (Py.sum (map ConflictSeverity conflicts) <= 100 ->
      C conflicts == 100 - Py.sum (map ConflictSeverity conflicts))
  /\ (100 <= Py.sum (map ConflictSeverity conflicts) ->
      C conflicts == 0 /\ C (c :: conflicts) == 0).
Proof.
  intros Hc. unfold C. simpl.
  set (total := Py.sum (map ConflictSeverity conflicts)).
  split; [|split].
  - apply Q.max_lub; [apply Q.le_max_l|].
    eapply Qle_trans; [|apply Q.le_max_r]. lra.
  - intros H. apply Q.max_r. lra.
  - intros H. split; apply Q.max_l; lra.
Qed.

Lemma conflict_score_decreases_to_floor_witness :
  C [ {| dimension := BudgetFigures; ConflictSeverity := 30 |};
      {| dimension := DatesAndTimelines; ConflictSeverity := 15 |} ]
  <= C [ {| dimension := DatesAndTimelines; ConflictSeverity := 15 |} ].
Proof.
  apply (conflict_score_decreases_to_floor
           {| dimension := BudgetFigures; ConflictSeverity := 30 |}
           [ {| dimension := DatesAndTimelines; ConflictSeverity := 15 |} ]).
  vm_compute. discriminate.
Defined.

(** "Higher density = higher score": a source set with at least the
    keyword density of another, scored with at least its quality
    multiplier, has at least its logic score; the score never exceeds the
    cap 100, and it is 0 for a set without keywords. *)
Theorem logic_score_grows_with_density
    (qm qm' : Q) (sources sources' : list Source) (l l' : Q) :
  0 <= qm -> qm <= qm' ->
  (KeywordCount sources * TotalWords sources'
   <= KeywordCount sources' * TotalWords sources)%nat ->
  L qm sources = Py.Ok l -> L qm' sources' = Py.Ok l' ->
  l <= l' /\ l' <= 100
  /\ (KeywordCount sources = 0%nat -> l == 0).
Proof.
  intros Hqm Hqm' Hdens Hl Hl'.
  apply L_Ok in Hl as [Hw ->]. apply L_Ok in Hl' as [Hw' ->].
  set (k := Py.of_nat (KeywordCount sources)).
  set (w := Py.of_nat (TotalWords sources)).
  set (k' := Py.of_nat (KeywordCount sources')).
  set (w' := Py.of_nat (TotalWords sources')).
  assert (Hk : 0 <= k) by apply of_nat_nonneg.
  assert (Hk' : 0 <= k') by apply of_nat_nonneg.
  assert (Hpw : 0 < w) by (apply of_nat_pos, Hw).
  assert (Hpw' : 0 < w') by (apply of_nat_pos, Hw').
  assert (Hd : k * w' <= k' * w).
  { subst k w k' w'. unfold Py.of_nat. rewrite <- !inject_Z_mult.
    rewrite <- Zle_Qle. lia. }
  assert (Hq : k / w <= k' / w').
  { apply Qle_shift_div_l; [exact Hpw'|].
    assert (E : k / w * w' == k * w' / w) by (field; lra).
    rewrite E. apply Qle_shift_div_r; [exact Hpw|exact Hd]. }
  assert (H0 : 0 <= k / w) by (apply Qle_shift_div_l; [exact Hpw|lra]).
  assert (Hx : k / w * 1000 * qm <= k' / w' * 1000 * qm').
  { set (d := k / w) in *. set (d' := k' / w') in *.
    assert (d * 1000 <= d' * 1000) by lra.
    assert (0 <= d * 1000) by lra.
    set (x := d * 1000) in *. set (x' := d' * 1000) in *. nra. }
  split; [|split].
  - apply Q.min_glb; [apply Q.le_min_l|].
    eapply Qle_trans; [apply Q.le_min_r|exact Hx].
  - apply Q.le_min_l.
  - intros E. subst k. rewrite E.
    assert (E0 : Py.of_nat 0 / w * 1000 * qm == 0).
    { unfold Py.of_nat. simpl. field. lra. }
    rewrite E0. apply Q.min_r. lra.
Qed.

Lemma logic_score_grows_with_density_witness :
  exists l l' : Q,
    L 1 [old_draft_transcript] = Py.Ok l
    /\ L 1.2 [old_draft_transcript; old_draft_transcript] = Py.Ok l'
    /\ l <= l'.
Proof.
  eexists. eexists. split; [reflexivity|]. split; [reflexivity|].
  apply (logic_score_grows_with_density 1 1.2 [old_draft_transcript]
           [old_draft_transcript; old_draft_transcript] _ _).
  - unfold Qle. simpl. lia.
  - unfold Qle. simpl. lia.
  - apply Nat.leb_le. vm_compute. reflexivity.
  - reflexivity.
  - reflexivity.
Defined.

(** "Score decreases with more conflicts": a further conflict leaves the
    veracity and the logic score as they are and never raises the conflict
    score nor the composite. *)
Theorem further_conflict_never_raises_rigor_score
    (qm : Q) (sources : list Source) (c : Conflict)
    (conflicts : list Conflict) (r : ScoreResponse) :
  0 <= ConflictSeverity c ->
  score qm sources conflicts = Py.Ok r ->
  exists r' : ScoreResponse,
    score qm sources (c :: conflicts) = Py.Ok r'
    /\ source_veracity_score r' = source_veracity_score r
    /\ logic_presence_score r' = logic_presence_score r
    /\ conflict_detection_score r' <= conflict_detection_score r
    /\ rigor_score r' <= rigor_score r.
Proof.
  intros Hc Hr.
  unfold score, mbind, result_bind, Py.bind in *.
  destruct (V sources) as [v|]; [|discriminate].
  destruct (L qm sources) as [l|]; [|discriminate].
  injection Hr as <-. eexists. split; [reflexivity|]. simpl.
  assert (HC : C (c :: conflicts) <= C conflicts).
  { unfold C. simpl. apply Q.max_lub; [apply Q.le_max_l|].
    eapply Qle_trans; [|apply Q.le_max_r]. lra. }
  repeat split; [exact HC|]. lra.
Qed.

Lemma further_conflict_never_raises_rigor_score_witness :
  exists r r' : ScoreResponse,
    score 1 [authoritative_final_pdf_today] [] = Py.Ok r
    /\ score 1 [authoritative_final_pdf_today]
         [ {| dimension := BudgetFigures; ConflictSeverity := 30 |} ]
       = Py.Ok r'
    /\ rigor_score r' <= rigor_score r.
Proof.
  assert (Hc : 0 <= 30) by (unfold Qle; simpl; lia).
  eexists.
  destruct (further_conflict_never_raises_rigor_score 1
              [authoritative_final_pdf_today]
              {| dimension := BudgetFigures; ConflictSeverity := 30 |} [] _
              Hc eq_refl)
    as (r' & Hr' & _ & _ & _ & Hle).
  exists r'. split; [reflexivity|]. split; [exact Hr'|exact Hle].
Defined.

(** An older document never gets a larger recency boost than a younger
    one; hence, all else equal, ageing never raises a source's factor. *)
Theorem recency_boost_antitone (d1 d2 : Z) (s : Source) :
  (d1 <= d2)%Z ->
  recency_boost (Some d2) <= recency_boost (Some d1)
  /\ source_factor
       {| source_type := source_type s;
          is_authoritative := is_authoritative s;
          status := status s;
          document_age_days := Some d2;
          word_count := word_count s;
          keyword_count := keyword_count s |}
     <= source_factor
          {| source_type := source_type s;
             is_authoritative := is_authoritative s;
             status := status s;
             document_age_days := Some d1;
             word_count := word_count s;
             keyword_count := keyword_count s |}.
Proof.
  intros Hd.
  assert (H1 : recency_boost (Some d2) <= recency_boost (Some d1)).
  { unfold recency_boost.
    destruct (Z.ltb_spec d1 30), (Z.leb_spec d1 90), (Z.leb_spec d1 180),
      (Z.ltb_spec d2 30), (Z.leb_spec d2 90), (Z.leb_spec d2 180);
      try lia; unfold Qle; simpl; lia. }
  split; [exact H1|].
  unfold source_factor, authority_weight.
  cbn [source_type is_authoritative status document_age_days].
  pose proof (authority_weight_bounds s) as [Ha1 Ha2].
  unfold authority_weight in Ha1, Ha2.
  pose proof (source_type_weight_bounds (source_type s)) as [Ht1 Ht2].
  pose proof (status_weight_bounds (status s)) as [Hs1 Hs2].
  set (a := if is_authoritative s then 1.5 else 1.0) in *.
  set (t := source_type_weight (source_type s)) in *.
  set (w := status_weight (status s)) in *.
  assert (H2 : 0 <= a * t) by nra.
  assert (H3 : 0 <= a * t * w) by nra.
  set (p := a * t * w) in *.
  set (r1 := recency_boost (Some d1)) in *.
  set (r2 := recency_boost (Some d2)) in *.
  nra.
Qed.

Lemma recency_boost_antitone_witness :
  recency_boost (Some 100%Z) <= recency_boost (Some 10%Z).
Proof.
  apply (recency_boost_antitone 10 100 authoritative_final_pdf_today).
  lia.
Defined.

End ScoreProperties.

(** * Further properties of the source set of an analysis *)

Section SourceSetProperties.

Import AnalysisSources AnalysisSummary.
Local Open Scope Q_scope.

Lemma references_true (t : gset positive) (k : option positive) :
  references t k = true <-> forall i, k = Some i -> i ∈ t.
Proof.
  destruct k as [i|]; simpl.
  - rewrite bool_decide_eq_true. split; [intros H j [= <-]; exact H|auto].
  - split; [intros _ i Hi; discriminate|reflexivity].
Qed.

Lemma insert_analysis_source_references db a s w reason now db' :
  insert_analysis_source db a s w reason now = inl db' ->
  references (analyses db) a = true /\ references (sources db) s = true.
Proof.
  unfold insert_analysis_source.
  destruct (negb (unique_analysis_source _ _)); [discriminate|].
  destruct (references (analyses db) a), (references (sources db) s);
    simpl; try discriminate. auto.
Qed.

Lemma step_references_hold db db' :
  step db db' -> references_hold db -> references_hold db'.
Proof.
  intros Hstep Hinv.
  destruct Hstep as [db a Ha|db s Hs|db a s w reason now db' Hins
                    |db a|db s|db i|db i w]; intros k r Hk; simpl in *.
  - destruct (Hinv k r Hk) as [H1 H2]. split; [|exact H2].
    intros a' Ha'. apply elem_of_union_r. eauto.
  - destruct (Hinv k r Hk) as [H1 H2]. split; [exact H1|].
    intros s' Hs'. apply elem_of_union_r. eauto.
  - pose proof (insert_analysis_source_references _ _ _ _ _ _ _ Hins)
      as [Ra Rs].
    apply insert_analysis_source_inl in Hins as (_ & -> & -> & Hrows).
    rewrite Hrows in Hk.
    apply lookup_insert_Some in Hk as [[_ <-]|[_ Hk]]; [|exact (Hinv k r Hk)].
    simpl. split; [apply references_true, Ra|apply references_true, Rs].
  - apply map_lookup_filter_Some in Hk as [Hk Hne]. simpl in Hne.
    destruct (Hinv k r Hk) as [H1 H2]. split; [|exact H2].
    intros a' Ha'. apply elem_of_difference. split; [eauto|].
    intros Hin. apply elem_of_singleton in Hin as ->. congruence.
  - apply map_lookup_filter_Some in Hk as [Hk Hne]. simpl in Hne.
    destruct (Hinv k r Hk) as [H1 H2]. split; [exact H1|].
    intros s' Hs'. apply elem_of_difference. split; [eauto|].
    intros Hin. apply elem_of_singleton in Hin as ->. congruence.
  - apply lookup_delete_Some in Hk as [_ Hk]. exact (Hinv k r Hk).
  - apply lookup_alter_Some in Hk as [(-> & r0 & Hr0 & ->)|[_ Hk]];
      [|exact (Hinv k r Hk)].
    simpl. exact (Hinv k r0 Hr0).
Qed.

Lemma reachable_references_hold (db : Db) :
  reachable db -> references_hold db.
Proof.
  unfold reachable. intros H.
  assert (G : forall d d', rtc step d d' ->
                references_hold d -> references_hold d').
  { induction 1 as [|d1 d2 d3 H12 _ IH]; [auto|].
    intros H1. apply IH. eapply step_references_hold; eauto. }
  apply (G _ _ H). intros i r Hi. simpl in Hi.
  rewrite lookup_empty in Hi. discriminate.
Qed.

(** Referential integrity: in every state of the database each binding
    refers to an analysis and to a source that exist; the foreign-key
    checks on insertion and the cascading deletes keep it so. *)
Theorem bindings_refer_to_existing_rows (db : Db) :
  reachable db ->
  forall (i : positive) (r : AnalysisSource),
    analysis_sources db !! i = Some r ->
    (forall a, analysis_id r = Some a -> a ∈ analyses db)
    /\ (forall s, source_id r = Some s -> s ∈ sources db).
Proof.
  intros H. exact (reachable_references_hold db H).
Qed.

Lemma bindings_refer_to_existing_rows_witness :
  reachable bound_db
  /\ forall (i : positive) (r : AnalysisSource),
       analysis_sources bound_db !! i = Some r ->
       forall a, analysis_id r = Some a -> a ∈ analyses bound_db.
Proof.
  split; [exact bound_db_reachable|].
  intros i r Hi.
  apply (bindings_refer_to_existing_rows bound_db bound_db_reachable i r Hi).
Defined.

Lemma insert_outcome
    (db : Db) (a s : positive) (w : Column Float8.float8)
    (reason : option string) (now : nat) :
  reachable db ->
  let bound := exists i r, analysis_sources db !! i = Some r /\ binds a s r in
  let outcome := insert_analysis_source db (Some a) (Some s) w reason now in
  (outcome = inr UniqueViolation <-> bound)
  /\ (outcome = inr ForeignKeyViolation
      <-> a ∉ analyses db \/ s ∉ sources db)
  /\ ((exists db', outcome = inl db')
      <-> ~ bound /\ a ∈ analyses db /\ s ∈ sources db).
Proof.
  intros Hreach bound outcome.
  pose proof (reachable_references_hold db Hreach) as Href.
  assert (Hb : bound -> a ∈ analyses db /\ s ∈ sources db).
  { intros (i & r & Hi & Ha & Hs). destruct (Href i r Hi) as [H1 H2].
    auto. }
  assert (Hu : unique_analysis_source (analysis_sources db)
                 {| analysis_id := Some a; source_id := Some s;
                    weight := with_default Float8.one w;
                    inclusion_reason := reason; added_at := now |} = true
               <-> ~ bound).
  { unfold unique_analysis_source. simpl. rewrite bool_decide_eq_true.
    split.
    - intros Hall (i & r & Hi & Hbind). exact (Hall i r Hi Hbind).
    - intros Hn i r Hi Hbind. apply Hn. exists i, r. auto. }
  subst outcome. unfold insert_analysis_source. simpl references.
  destruct (unique_analysis_source _ _) eqn:EU; simpl negb; cbv iota.
  - assert (Hnb : ~ bound) by (apply Hu; reflexivity).
    destruct (bool_decide (a ∈ analyses db)) eqn:Ea;
      destruct (bool_decide (s ∈ sources db)) eqn:Es; simpl;
      try apply bool_decide_eq_true in Ea;
      try apply bool_decide_eq_false in Ea;
      try apply bool_decide_eq_true in Es;
      try apply bool_decide_eq_false in Es;
      (split; [|split]); split;
      try discriminate; try tauto; try (intros [? ?]; discriminate);
      try (intros _; reflexivity); eauto.
  - assert (Hbd : bound).
    { unfold unique_analysis_source in EU. simpl in EU.
      apply bool_decide_eq_false in EU.
      apply map_not_Forall in EU; [|intros; apply _].
      destruct EU as (i & r & Hi & Hnn). exists i, r. split; [exact Hi|].
      apply dec_stable. exact Hnn. }
    destruct (Hb Hbd) as [Ha Hs].
    (split; [|split]); split;
      try discriminate; try tauto; try (intros [? ?]; discriminate);
      try (intros _; reflexivity).
Qed.

(** The outcome of binding source [s] to analysis [a]: rejected by the
    unique constraint when the pair is bound already, rejected by a
    foreign key when the analysis or the source does not exist, accepted
    otherwise. *)
Theorem insert_analysis_source_outcome
    (db : Db) (a s : positive) (w : Column Float8.float8)
    (reason : option string) (now : nat) :
  reachable db ->
  let bound := exists i r, analysis_sources db !! i = Some r /\ binds a s r in
  let outcome := insert_analysis_source db (Some a) (Some s) w reason now in
  (outcome = inr UniqueViolation <-> bound)
  /\ (outcome = inr ForeignKeyViolation
      <-> a ∉ analyses db \/ s ∉ sources db)
  /\ ((exists db', outcome = inl db')
      <-> ~ bound /\ a ∈ analyses db /\ s ∈ sources db).
Proof.
  intros H. exact (insert_outcome db a s w reason now H).
Qed.

Lemma insert_analysis_source_outcome_witness :
  reachable bound_db
  /\ insert_analysis_source bound_db (Some 2%positive) (Some 1%positive)
       Omitted None 1
     = inr ForeignKeyViolation.
Proof.
  split; [exact bound_db_reachable|].
  destruct (insert_analysis_source_outcome bound_db 2%positive 1%positive
              Omitted None 1 bound_db_reachable) as (_ & [_ H] & _).
  apply H. left. vm_compute. intros H'. discriminate.
Defined.

(** Deleting an analysis cascades to its bindings and to nothing else: the
    bindings of other analyses stay as they are, no binding of the deleted
    analysis is left, and once the analysis is created again under the
    same key every existing source can be bound to it anew. *)
Theorem delete_analysis_cascades
    (db : Db) (a s : positive) (w : Column Float8.float8)
    (reason : option string) (now : nat) :
  reachable db ->
  s ∈ sources db ->
  let db1 := delete_analysis db a in
  (forall (i : positive) (r : AnalysisSource),
     analysis_sources db1 !! i = Some r
     <-> analysis_sources db !! i = Some r /\ analysis_id r <> Some a)
  /\ reachable (create_analysis db1 a)
  /\ exists db2 : Db,
       insert_analysis_source (create_analysis db1 a) (Some a) (Some s)
         w reason now = inl db2.
Proof.
  intros Hreach Hs db1.
  assert (Hrows : forall (i : positive) (r : AnalysisSource),
            analysis_sources db1 !! i = Some r
            <-> analysis_sources db !! i = Some r /\ analysis_id r <> Some a).
  { intros i r. subst db1. simpl. apply map_lookup_filter_Some. }
  assert (Hreach2 : reachable (create_analysis db1 a)).
  { unfold reachable. eapply rtc_r.
    - eapply rtc_r; [exact Hreach|]. apply (step_delete_analysis db a).
    - apply (step_create_analysis db1 a). subst db1. simpl.
      intros H. apply elem_of_difference in H as [_ H].
      apply H, elem_of_singleton. reflexivity. }
  split; [exact Hrows|]. split; [exact Hreach2|].
  apply (insert_outcome _ a s w reason now Hreach2).
  split; [|split].
  - intros (i & r & Hi & Ha & _). simpl in Hi.
    apply Hrows in Hi as [_ Hne]. congruence.
  - simpl. apply elem_of_union_l, elem_of_singleton. reflexivity.
  - simpl. exact Hs.
Qed.

Lemma delete_analysis_cascades_witness :
  reachable bound_db
  /\ analysis_sources (delete_analysis bound_db 1%positive) = ∅
  /\ exists db2 : Db,
       insert_analysis_source
         (create_analysis (delete_analysis bound_db 1%positive) 1%positive)
         (Some 1%positive) (Some 1%positive) Omitted None 2
       = inl db2.
Proof.
  split; [exact bound_db_reachable|]. split; [vm_compute; reflexivity|].
  assert (Hs : 1%positive ∈ sources bound_db)
    by (vm_compute; reflexivity).
  destruct (delete_analysis_cascades bound_db 1%positive 1%positive
              Omitted None 2 bound_db_reachable Hs) as (_ & _ & H).
  exact H.
Defined.

Lemma NoDup_omap {A B : Type} (f : A -> option B) (l : list A) :
  NoDup l ->
  (forall x y z, x ∈ l -> y ∈ l -> f x = Some z -> f y = Some z -> x = y) ->
  NoDup (omap f l).
Proof.
  induction 1 as [|x l Hx Hl IH]; intros Hinj; simpl; [constructor|].
  assert (IH' : NoDup (omap f l)).
  { apply IH. intros y1 y2 z H1 H2. apply Hinj; right; assumption. }
  destruct (f x) as [z|] eqn:E; [|exact IH'].
  constructor; [|exact IH'].
  intros Hin. apply list_elem_of_omap in Hin as (y & Hy & Hfy).
  assert (x = y) by (apply (Hinj x y z); [left|right| |]; auto).
  subst. contradiction.
Qed.

Lemma joined_source_ids_spec (db : Db) (a s : positive) :
  s ∈ joined_source_ids db a
  <-> exists i r, analysis_sources db !! i = Some r /\ binds a s r.
Proof.
  unfold joined_source_ids. rewrite list_elem_of_omap. split.
  - intros ([i r] & Hin & Hf). apply elem_of_map_to_list in Hin.
    simpl in Hf. destruct (decide _) as [Ha|]; [|discriminate].
    exists i, r. split; [exact Hin|split; assumption].
  - intros (i & r & Hi & Ha & Hs). exists (i, r).
    split; [apply elem_of_map_to_list, Hi|]. simpl.
    destruct (decide _); [exact Hs|contradiction].
Qed.

(** The counts of the analysis summary: an analysis that does not exist
    has no row; an analysis without bindings counts 0 sources; the
    authoritative sources never outnumber the sources; and because a
    source is bound to an analysis at most once, DISTINCT drops nothing:
    the number of sources is the number of bindings of the analysis that
    name a source. *)
Theorem analysis_summary_counts
    (is_authoritative : positive -> option bool) (db : Db) (a : positive) :
  reachable db ->
  (a ∉ analyses db -> v_analysis_summary is_authoritative db a = None)
  /\ ((forall i r, analysis_sources db !! i = Some r ->
                   analysis_id r <> Some a) ->
      total_sources db a = 0%nat)
  /\ (authoritative_sources is_authoritative db a <= total_sources db a)%nat
  /\ total_sources db a = length (joined_source_ids db a)
  /\ (forall s : positive,
        s ∈ joined_source_ids db a
        <-> exists i r, analysis_sources db !! i = Some r /\ binds a s r).
Proof.
  intros Hreach.
  pose proof (reachable_bound_once db Hreach) as Honce.
  split; [|split; [|split; [|split]]].
  - intros Ha. unfold v_analysis_summary.
    destruct (decide _); [contradiction|reflexivity].
  - intros Hnone. unfold total_sources.
    assert (E : joined_source_ids db a = []).
    { apply elem_of_nil_inv. intros s Hs.
      apply joined_source_ids_spec in Hs as (i & r & Hi & Ha & _).
      exact (Hnone i r Hi Ha). }
    rewrite E. reflexivity.
  - unfold authoritative_sources, total_sources. apply subseteq_size.
    intros s Hs. apply elem_of_list_to_set in Hs.
    apply list_elem_of_filter in Hs as [_ Hs].
    apply elem_of_list_to_set, Hs.
  - unfold total_sources. apply size_list_to_set.
    unfold joined_source_ids. apply NoDup_omap.
    + apply NoDup_map_to_list.
    + intros [i ri] [j rj] s Hi Hj Hfi Hfj. simpl in Hfi, Hfj.
      apply elem_of_map_to_list in Hi, Hj.
      destruct (decide (analysis_id ri = Some a)) as [Hai|]; [|discriminate].
      destruct (decide (analysis_id rj = Some a)) as [Haj|]; [|discriminate].
      assert (i = j) by (apply (Honce a s i j ri rj); auto; split; auto).
      subst j. congruence.
  - apply joined_source_ids_spec.
Qed.

Lemma analysis_summary_counts_witness :
  reachable bound_db
  /\ v_analysis_summary (fun _ => Some true) bound_db 1%positive
     = Some (1%nat, 1%nat)
  /\ total_sources bound_db 1%positive
     = length (joined_source_ids bound_db 1%positive).
Proof.
  split; [exact bound_db_reachable|]. split; [vm_compute; reflexivity|].
  apply (analysis_summary_counts (fun _ => Some true) bound_db 1%positive
           bound_db_reachable).
Defined.

End SourceSetProperties.

(** * Role-based access control *)

Section AccessControl.

Import Rbac.

Lemma holds_and (a b : Sql.tri) :
  Sql.holds (Sql.tri_and a b) = true
  <-> Sql.holds a = true /\ Sql.holds b = true.
Proof.
  destruct a, b; simpl; intuition discriminate.
Qed.

Lemma holds_or (a b : Sql.tri) :
  Sql.holds (Sql.tri_or a b) = true
  <-> Sql.holds a = true \/ Sql.holds b = true.
Proof.
  destruct a, b; simpl; intuition discriminate.
Qed.

Lemma holds_equal {A : Type} `{EqDecision A} (x y : option A) :
  Sql.holds (Sql.equal x y) = true <-> exists a, x = Some a /\ y = Some a.
Proof.
  destruct x as [a|], y as [b|]; simpl;
    try (split; [discriminate|intros (c & H1 & H2); discriminate]).
  destruct (decide (a = b)) as [->|Hne]; simpl.
  - split; eauto.
  - split; [discriminate|]. intros (c & H1 & H2). congruence.
Qed.

Lemma holds_is_null {A : Type} (x : option A) :
  Sql.holds (Sql.is_null x) = true <-> x = None.
Proof.
  destruct x; simpl; intuition discriminate.
Qed.

Lemma holds_gt (x y : option nat) :
  Sql.holds (Sql.gt x y) = true
  <-> exists a b, x = Some a /\ y = Some b /\ b < a.
Proof.
  destruct x as [a|], y as [b|]; simpl;
    try (split; [discriminate|intros (c & d & H1 & H2 & _); discriminate]).
  destruct (decide (b < a)); simpl.
  - split; eauto.
  - split; [discriminate|]. intros (c & d & [= <-] & [= <-] & H). lia.
Qed.

Lemma v_user_permissions_grant
    (db : Db) (now : nat) (uid : positive) (res act : string)
    (scope : option positive) :
  (exists row : UserPermission,
     row ∈ v_user_permissions db now
     /\ user_id row = uid /\ resource row = res /\ action row = act
     /\ workspace_id row = scope)
  <-> grant db now uid res act scope.
Proof.
  unfold v_user_permissions, grant. split.
  - intros (row & Hin & Hu & Hr & Ha & Hw).
    rewrite elem_of_remove_dups in Hin.
    apply list_elem_of_bind in Hin as (u & Hin & Hu_in).
    apply list_elem_of_bind in Hin as (ur & Hin & Hur_in).
    apply list_elem_of_filter in Hur_in as [Hur Hur_in].
    apply list_elem_of_bind in Hin as (r & Hin & Hr_in).
    apply list_elem_of_filter in Hr_in as [Hr' Hr_in].
    apply list_elem_of_bind in Hin as (rp & Hin & Hrp_in).
    apply list_elem_of_filter in Hrp_in as [Hrp Hrp_in].
    apply list_elem_of_bind in Hin as (p & Hin & Hp_in).
    apply list_elem_of_filter in Hp_in as [Hp Hp_in].
    destruct (Sql.holds _) eqn:Hwhere in Hin;
      [|apply elem_of_nil in Hin; contradiction].
    apply list_elem_of_singleton in Hin. subst row.
    cbn [user_id resource action workspace_id] in *.
    apply holds_equal in Hur as (a1 & [= <-] & Hur).
    apply holds_equal in Hr' as (a2 & Hr1 & [= <-]).
    apply holds_equal in Hrp as (a3 & [= <-] & Hrp).
    apply holds_equal in Hp as (a4 & Hp1 & [= <-]).
    apply holds_and in Hwhere as [Hwhere Hexp].
    apply holds_and in Hwhere as [Hwhere Hpa].
    apply holds_and in Hwhere as [Hua Hra].
    apply holds_equal in Hua as (b1 & Hua & [= <-]).
    apply holds_equal in Hra as (b2 & Hra & [= <-]).
    apply holds_equal in Hpa as (b3 & Hpa & [= <-]).
    apply holds_or in Hexp as [Hexp|Hexp].
    + apply holds_is_null in Hexp.
      exists u, ur, r, rp, p. subst uid. repeat split; auto.
    + apply holds_gt in Hexp as (t & n & Ht & [= <-] & Hlt).
      exists u, ur, r, rp, p. subst uid. repeat split; eauto.
  - intros (u & ur & r & rp & p & (Hu_in & Hur_in & Hr_in & Hrp_in & Hp_in)
            & (Hu & Hur & Hr & Hrp & Hp) & (Hres & Hact)
            & (Hua & Hra & Hpa) & Hexp & Hw).
    exists {| user_id := u_id u; email := u_email u;
              full_name := u_full_name u; role_name := r_name r;
              resource := p_resource p; action := p_action p;
              workspace_id := ur_workspace_id ur |}.
    split; [|simpl; auto].
    rewrite elem_of_remove_dups.
    apply list_elem_of_bind. exists u. split; [|exact Hu_in].
    apply list_elem_of_bind. exists ur. split.
    2:{ apply list_elem_of_filter. split; [|exact Hur_in].
        apply holds_equal. exists uid. rewrite Hu. auto. }
    apply list_elem_of_bind. exists r. split.
    2:{ apply list_elem_of_filter. split; [|exact Hr_in].
        apply holds_equal. eauto. }
    apply list_elem_of_bind. exists rp. split.
    2:{ apply list_elem_of_filter. split; [|exact Hrp_in].
        apply holds_equal. eauto. }
    apply list_elem_of_bind. exists p. split.
    2:{ apply list_elem_of_filter. split; [|exact Hp_in].
        apply holds_equal. eauto. }
    assert (Hwhere :
      Sql.holds
        (Sql.tri_and
           (Sql.tri_and
              (Sql.tri_and (Sql.equal (u_is_active u) (Some true))
                           (Sql.equal (r_is_active r) (Some true)))
              (Sql.equal (p_is_active p) (Some true)))
           (Sql.tri_or (Sql.is_null (ur_expires_at ur))
                       (Sql.gt (ur_expires_at ur) (Some now)))) = true).
    { apply holds_and. split; [apply holds_and; split;
                                 [apply holds_and; split|]|].
      - apply holds_equal. eauto.
      - apply holds_equal. eauto.
      - apply holds_equal. eauto.
      - apply holds_or. destruct Hexp as [Hn|(t & Ht & Hlt)].
        + left. apply holds_is_null, Hn.
        + right. apply holds_gt. eauto. }
    rewrite Hwhere. apply list_elem_of_singleton. reflexivity.
Qed.

Lemma has_permission_grant
    (db : Db) (now : nat) (uid : positive) (res act : string)
    (ws : option positive) :
  user_has_permission db now (Some uid) (Some res) (Some act) ws = true
  <-> grant db now uid res act None
      \/ exists w, ws = Some w /\ grant db now uid res act (Some w).
Proof.
  unfold user_has_permission. rewrite existsb_exists. split.
  - intros (row & Hin & Hc). apply list_elem_of_In in Hin.
    apply holds_and in Hc as [Hc Hws].
    apply holds_and in Hc as [Hc Ha].
    apply holds_and in Hc as [Hu Hr].
    apply holds_equal in Hu as (a1 & Hu1 & Hu2).
    apply holds_equal in Hr as (a2 & Hr1 & Hr2).
    apply holds_equal in Ha as (a3 & Ha1 & Ha2).
    simplify_eq.
    apply holds_or in Hws as [Hws|Hws].
    + apply holds_equal in Hws as (w & Hw & ->). right.
      exists w. split; [reflexivity|].
      apply v_user_permissions_grant. exists row. auto.
    + apply holds_is_null in Hws. left.
      apply v_user_permissions_grant. exists row. auto.
  - intros [Hg|(w & -> & Hg)];
      apply v_user_permissions_grant in Hg
        as (row & Hin & <- & <- & <- & Hw);
      exists row; (split; [apply list_elem_of_In, Hin|]);
      (apply holds_and; split;
       [apply holds_and; split; [apply holds_and; split|]|]);
      try (apply holds_equal; eauto).
    + apply holds_or. right. apply holds_is_null, Hw.
    + apply holds_or. left. apply holds_equal. eauto.
Qed.

(** [user_has_permission] answers TRUE exactly when an unbroken chain of
    rows grants the permission: an active user holding, through an
    assignment that has not expired, an active role with the active
    permission, where the assignment is either global (its workspace is
    NULL) or scoped to the very workspace asked about.  A NULL user,
    resource or action is never granted anything. *)
Theorem user_has_permission_iff_grant
    (db : Db) (now : nat) (uid : positive) (res act : string)
    (ws : option positive) :
  (user_has_permission db now (Some uid) (Some res) (Some act) ws = true
   <-> grant db now uid res act None
       \/ exists w, ws = Some w /\ grant db now uid res act (Some w))
  /\ user_has_permission db now None (Some res) (Some act) ws = false
  /\ user_has_permission db now (Some uid) None (Some act) ws = false
  /\ user_has_permission db now (Some uid) (Some res) None ws = false.
Proof.
  split; [apply has_permission_grant|split; [|split]].
  - unfold user_has_permission. apply not_true_is_false.
    rewrite existsb_exists. intros (row & _ & Hc).
    apply holds_and in Hc as [Hc _]. apply holds_and in Hc as [Hc _].
    apply holds_and in Hc as [Hc _].
    apply holds_equal in Hc as (a & _ & H). discriminate.
  - unfold user_has_permission. apply not_true_is_false.
    rewrite existsb_exists. intros (row & _ & Hc).
    apply holds_and in Hc as [Hc _]. apply holds_and in Hc as [Hc _].
    apply holds_and in Hc as [_ Hc].
    apply holds_equal in Hc as (a & _ & H). discriminate.
  - unfold user_has_permission. apply not_true_is_false.
    rewrite existsb_exists. intros (row & _ & Hc).
    apply holds_and in Hc as [Hc _]. apply holds_and in Hc as [_ Hc].
    apply holds_equal in Hc as (a & _ & H). discriminate.
Qed.

Lemma like_cons_plain (c : ascii) (p s : string) :
  Ascii.eqb c "%"%char = false -> Ascii.eqb c "_"%char = false ->
  Sql.like (String c p) s
  = match s with
    | EmptyString => false
    | String d s' => Ascii.eqb c d && Sql.like p s'
    end.
Proof.
  intros H1 H2. simpl. rewrite H1, H2. reflexivity.
Qed.

Lemma like_cons_percent (p s : string) :
  Sql.like (String "%"%char p) s
  = Sql.like p s
    || match s with
       | EmptyString => false
       | String _ s' => Sql.like (String "%"%char p) s'
       end.
Proof.
  destruct s; reflexivity.
Qed.

Lemma like_exact (p s : string) :
  Sql.plain p = true -> (Sql.like p s = true <-> s = p).
Proof.
  revert s. induction p as [|c p IH]; intros s Hp.
  - destruct s; simpl; split; congruence.
  - simpl in Hp. apply andb_true_iff in Hp as [Hc Hp].
    apply andb_true_iff in Hc as [Hc _].
    apply andb_true_iff in Hc as [H1 H2].
    apply negb_true_iff in H1, H2.
    rewrite (like_cons_plain c p s H1 H2).
    destruct s as [|d s]; [split; discriminate|].
    rewrite andb_true_iff, (IH s Hp). split.
    + intros [Hcd ->]. apply Ascii.eqb_eq in Hcd as ->. reflexivity.
    + intros [= -> ->]. split; [apply Ascii.eqb_refl|reflexivity].
Qed.

Lemma like_shapes (p s : string) :
  Sql.plain p = true ->
  (Sql.like p s = true <-> s = p)
  /\ (Sql.like (p +:+ "%") s = true <-> exists t, s = p +:+ t)
  /\ (Sql.like ("%" +:+ p) s = true <-> exists t, s = t +:+ p).
Proof.
  intros Hp. split; [apply like_exact, Hp|]. split.
  - revert s Hp. induction p as [|c p IH]; intros s Hp.
    + change ("" +:+ "%") with (String "%"%char EmptyString).
      split; [intros _; exists s; reflexivity|].
      intros _. induction s as [|d s IHs]; [reflexivity|].
      rewrite like_cons_percent. rewrite IHs. apply orb_true_r.
    + simpl in Hp. apply andb_true_iff in Hp as [Hc Hp].
      apply andb_true_iff in Hc as [Hc _].
      apply andb_true_iff in Hc as [H1 H2].
      apply negb_true_iff in H1, H2.
      change (String c p +:+ "%") with (String c (p +:+ "%")).
      rewrite (like_cons_plain c _ s H1 H2).
      destruct s as [|d s].
      * split; [discriminate|]. intros (t & Ht). discriminate.
      * rewrite andb_true_iff, (IH s Hp). split.
        -- intros [Hcd (t & ->)]. apply Ascii.eqb_eq in Hcd as ->.
           exists t. reflexivity.
        -- intros (t & Ht). simpl in Ht. injection Ht as -> ->.
           split; [apply Ascii.eqb_refl|eauto].
  - change ("%" +:+ p) with (String "%"%char p).
    induction s as [|d s IHs]; rewrite like_cons_percent, orb_true_iff,
      (like_exact p _ Hp).
    + split.
      * intros [<-|H]; [exists ""; reflexivity|discriminate].
      * intros (t & Ht). left. destruct t; simpl in Ht; [exact Ht|].
        discriminate.
    + rewrite IHs. split.
      * intros [<-|(t & ->)]; [exists ""; reflexivity|].
        exists (String d t). reflexivity.
      * intros (t & Ht). destruct t as [|e t]; simpl in Ht.
        -- left. exact Ht.
        -- right. injection Ht as -> ->. eauto.
Qed.

(** The two shapes of LIKE pattern the schema uses: a pattern of ordinary
    characters, without wildcard or escape character, matches itself only,
    followed by [%] it matches exactly the texts that begin with it, and
    preceded by [%] exactly the texts that end with it. *)
Theorem like_prefix_suffix (p s : string) :
  Sql.plain p = true ->
  (Sql.like p s = true <-> s = p)
  /\ (Sql.like (p +:+ "%") s = true <-> exists t, s = p +:+ t)
  /\ (Sql.like ("%" +:+ p) s = true <-> exists t, s = t +:+ p).
Proof.
  exact (like_shapes p s).
Qed.

Lemma like_prefix_suffix_witness :
  Sql.like "%.read" "user.read" = true
  <-> exists t, "user.read" = t +:+ ".read".
Proof.
  apply (like_prefix_suffix ".read" "user.read"). reflexivity.
Defined.

Lemma role_gets_admin (n : string) :
  role_gets "admin" n = negb (Sql.like "user.%" n).
Proof.
  unfold role_gets.
  change (String.eqb "admin" "superadmin") with false.
  change (String.eqb "admin" "admin") with true.
  change (String.eqb "admin" "analyst") with false.
  change (String.eqb "admin" "contributor") with false.
  change (String.eqb "admin" "viewer") with false.
  cbn [orb andb]. destruct (negb _); reflexivity.
Qed.

Lemma role_gets_viewer (n : string) :
  role_gets "viewer" n = Sql.like "%.read" n.
Proof.
  unfold role_gets.
  change (String.eqb "viewer" "superadmin") with false.
  change (String.eqb "viewer" "admin") with false.
  change (String.eqb "viewer" "analyst") with false.
  change (String.eqb "viewer" "contributor") with false.
  change (String.eqb "viewer" "viewer") with true.
  cbn [orb andb]. reflexivity.
Qed.

Lemma role_gets_analyst (n : string) :
  role_gets "analyst" n
  = bool_decide
      (n ∈ [ "workspace.read";
             "source.read"; "source.create"; "source.update";
             "analysis.create"; "analysis.read"; "analysis.update";
             "analysis.score"; "analysis.export";
             "integration.read" ]).
Proof.
  unfold role_gets.
  change (String.eqb "analyst" "superadmin") with false.
  change (String.eqb "analyst" "admin") with false.
  change (String.eqb "analyst" "analyst") with true.
  change (String.eqb "analyst" "contributor") with false.
  change (String.eqb "analyst" "viewer") with false.
  cbn [orb andb]. destruct (bool_decide _); reflexivity.
Qed.

Lemma role_gets_contributor (n : string) :
  role_gets "contributor" n
  = bool_decide
      (n ∈ [ "workspace.read";
             "source.create"; "source.read"; "source.update";
             "analysis.read" ]).
Proof.
  unfold role_gets.
  change (String.eqb "contributor" "superadmin") with false.
  change (String.eqb "contributor" "admin") with false.
  change (String.eqb "contributor" "analyst") with false.
  change (String.eqb "contributor" "contributor") with true.
  change (String.eqb "contributor" "viewer") with false.
  cbn [orb andb]. destruct (bool_decide _); reflexivity.
Qed.

(** What the assignment query gives each role, for any permission name:
    superadmin gets every permission; admin exactly those whose name does
    not begin with "user."; viewer exactly those whose name ends with
    ".read"; a role of any other name than the five gets nothing.
    Permissions grow along contributor, analyst, admin, superadmin, but
    not from viewer to admin: viewer gets "user.read", which admin does
    not. *)
Theorem role_permission_hierarchy (n : string) :
  role_gets "superadmin" n = true
  /\ (role_gets "admin" n = true <-> ~ exists t, n = "user." +:+ t)
  /\ (role_gets "viewer" n = true <-> exists t, n = t +:+ ".read")
  /\ (role_gets "contributor" n = true -> role_gets "analyst" n = true)
  /\ (role_gets "analyst" n = true -> role_gets "admin" n = true)
  /\ (forall role : string,
        role ∉ ["superadmin"; "admin"; "analyst"; "contributor"; "viewer"] ->
        role_gets role n = false)
  /\ (role_gets "viewer" "user.read" = true
      /\ role_gets "admin" "user.read" = false).
Proof.
  pose proof (like_shapes "user." n eq_refl) as (_ & Hpre & _).
  pose proof (like_shapes ".read" n eq_refl) as (_ & _ & Hsuf).
  split; [reflexivity|]. split; [|split; [|split; [|split; [|split]]]].
  - rewrite role_gets_admin, negb_true_iff, <- Hpre.
    destruct (Sql.like _ n); split; congruence.
  - rewrite role_gets_viewer. exact Hsuf.
  - rewrite role_gets_contributor, role_gets_analyst.
    rewrite !bool_decide_eq_true. intros H.
    repeat (apply elem_of_cons in H as [->|H];
            [repeat first [apply list_elem_of_here
                          |apply list_elem_of_further]|]).
    apply elem_of_nil in H. contradiction.
  - rewrite role_gets_analyst, role_gets_admin.
    rewrite bool_decide_eq_true. intros H.
    repeat (apply elem_of_cons in H as [->|H]; [reflexivity|]).
    apply elem_of_nil in H. contradiction.
  - intros role Hrole. unfold role_gets.
    assert (E : forall k, k ∈ ["superadmin"; "admin"; "analyst";
                               "contributor"; "viewer"] ->
                String.eqb role k = false).
    { intros k Hk. apply String.eqb_neq. intros ->. contradiction. }
    rewrite !E by (repeat first [apply list_elem_of_here
                                |apply list_elem_of_further]).
    reflexivity.
  - split; reflexivity.
Qed.

Lemma NoDup_fmap_eq {A B : Type} (f : A -> B) (l : list A) (x y : A) :
  NoDup (f <$> l) -> x ∈ l -> y ∈ l -> f x = f y -> x = y.
Proof.
  induction l as [|z l IH]; intros Hnd Hx Hy Hf.
  - apply elem_of_nil in Hx. contradiction.
  - rewrite fmap_cons in Hnd. apply NoDup_cons in Hnd as [Hz Hnd].
    apply elem_of_cons in Hx as [->|Hx]; apply elem_of_cons in Hy as [->|Hy].
    + reflexivity.
    + exfalso. apply Hz. rewrite Hf. apply list_elem_of_fmap_2, Hy.
    + exfalso. apply Hz. rewrite <- Hf. apply list_elem_of_fmap_2, Hx.
    + apply IH; assumption.
Qed.

Lemma assign_permissions_row
    (rs : list Role) (ps : list Permission) (rp : RolePermission) :
  rp ∈ assign_permissions rs ps
  <-> exists r p, r ∈ rs /\ p ∈ ps
                  /\ role_gets (r_name r) (p_name p) = true
                  /\ rp = {| rp_role_id := Some (r_id r);
                             rp_permission_id := Some (p_id p) |}.
Proof.
  unfold assign_permissions. rewrite list_elem_of_bind. split.
  - intros (r & Hin & Hr). apply list_elem_of_bind in Hin as (p & Hin & Hp).
    destruct (role_gets _ _) eqn:E; [|apply elem_of_nil in Hin; contradiction].
    apply list_elem_of_singleton in Hin. exists r, p. auto.
  - intros (r & p & Hr & Hp & E & ->). exists r. split; [|exact Hr].
    apply list_elem_of_bind. exists p. split; [|exact Hp].
    rewrite E. apply list_elem_of_singleton. reflexivity.
Qed.

(** The assignment query yields each pair of a role and a permission at
    most once when the role keys and the permission keys are unique, so
    its rows never collide on the constraint [unique_role_permission];
    every row pairs a role with a permission the role is meant to get. *)
Theorem assigned_permissions_unique
    (rs : list Role) (ps : list Permission) :
  NoDup (r_id <$> rs) -> NoDup (p_id <$> ps) ->
  NoDup (assign_permissions rs ps)
  /\ unique_role_permission (assign_permissions rs ps)
  /\ forall rp : RolePermission,
       rp ∈ assign_permissions rs ps ->
       exists r p, r ∈ rs /\ p ∈ ps
                   /\ rp_role_id rp = Some (r_id r)
                   /\ rp_permission_id rp = Some (p_id p)
                   /\ role_gets (r_name r) (p_name p) = true.
Proof.
  intros Hr Hp.
  assert (Hnd : NoDup (assign_permissions rs ps)).
  { unfold assign_permissions. apply NoDup_bind.
    - intros r1 r2 rp H1 H2 Hin1 Hin2.
      apply list_elem_of_bind in Hin1 as (p1 & Hin1 & _).
      apply list_elem_of_bind in Hin2 as (p2 & Hin2 & _).
      destruct (role_gets (r_name r1) _);
        [|apply elem_of_nil in Hin1; contradiction].
      destruct (role_gets (r_name r2) _);
        [|apply elem_of_nil in Hin2; contradiction].
      apply list_elem_of_singleton in Hin1, Hin2. subst rp.
      injection Hin2 as Hid _. eapply NoDup_fmap_eq; eauto.
    - intros r _. apply NoDup_bind.
      + intros p1 p2 rp H1 H2 Hin1 Hin2.
        destruct (role_gets _ (p_name p1));
          [|apply elem_of_nil in Hin1; contradiction].
        destruct (role_gets _ (p_name p2));
          [|apply elem_of_nil in Hin2; contradiction].
        apply list_elem_of_singleton in Hin1, Hin2. subst rp.
        injection Hin2 as Hid. eapply NoDup_fmap_eq; eauto.
      + intros p _. destruct (role_gets _ _);
          [apply NoDup_singleton|apply NoDup_nil_2].
      + eapply NoDup_fmap_1, Hp.
    - eapply NoDup_fmap_1, Hr. }
  split; [exact Hnd|]. split.
  - intros i j x y r p Hi Hj Hxr Hxp Hyr Hyp.
    assert (x = y).
    { apply list_elem_of_lookup_2 in Hi, Hj.
      apply assign_permissions_row in Hi as (r1 & p1 & _ & _ & _ & ->).
      apply assign_permissions_row in Hj as (r2 & p2 & _ & _ & _ & ->).
      simpl in *. congruence. }
    subst y. eapply NoDup_lookup; eauto.
  - intros rp Hin.
    apply assign_permissions_row in Hin as (r & p & H1 & H2 & H3 & ->).
    exists r, p. auto.
Qed.

Lemma assigned_permissions_unique_witness :
  NoDup (r_id <$> default_roles)
  /\ NoDup (p_id <$> default_permissions)
  /\ NoDup (assign_permissions default_roles default_permissions).
Proof.
  assert (H1 : NoDup (r_id <$> default_roles))
    by (apply (bool_decide_unpack _); vm_compute; exact I).
  assert (H2 : NoDup (p_id <$> default_permissions))
    by (apply (bool_decide_unpack _); vm_compute; exact I).
  split; [exact H1|]. split; [exact H2|].
  apply (assigned_permissions_unique default_roles default_permissions H1 H2).
Defined.

Lemma admin_holds_no_user_permission :
  forallb
    (fun rp =>
       forallb
         (fun p =>
            negb (bool_decide
                    (rp_role_id rp = Some 2%positive
                     /\ rp_permission_id rp = Some (p_id p)
                     /\ p_resource p = "user")))
         default_permissions)
    (assign_permissions default_roles default_permissions) = true.
Proof.
  vm_compute. reflexivity.
Qed.

(** With the roles and permissions of the P1 schema, a user who holds the
    viewer role in all workspaces may read users, in whatever workspace
    the check is made, while a user all of whose roles are admin may do
    nothing on users: the viewer rule [LIKE '%.read'] covers
    [user.read], which the admin rule [NOT LIKE 'user.%'] leaves out. *)
Theorem viewer_reads_users_admin_does_not
    (db : Db) (now : nat) (uid : positive) (ws : option positive) :
  seeded db ->
  ((exists (u : User) (ur : UserRole),
      u ∈ users db /\ u_id u = uid /\ u_is_active u = Some true
      /\ ur ∈ user_roles db /\ ur_user_id ur = Some uid
      /\ ur_role_id ur = Some 5%positive
      /\ ur_expires_at ur = None /\ ur_workspace_id ur = None) ->
   user_has_permission db now (Some uid) (Some "user") (Some "read") ws
   = true)
  /\ ((forall ur : UserRole,
         ur ∈ user_roles db -> ur_user_id ur = Some uid ->
         ur_role_id ur = Some 2%positive) ->
      forall act : string,
        user_has_permission db now (Some uid) (Some "user") (Some act) ws
        = false).
Proof.
  intros (Hroles & Hperms & Hrps). split.
  - intros (u & ur & Hu & Hid & Hact & Hur & Huid & Hrole & Hexp & Hws).
    apply has_permission_grant. left.
    exists u, ur,
      {| r_id := 5; r_name := "viewer"; r_level := Some 10%Z;
         r_is_active := Some true |},
      {| rp_role_id := Some 5%positive;
         rp_permission_id := Some 17%positive |},
      (permission 17 "user" "read").
    rewrite Hroles, Hperms, Hrps.
    repeat split; auto.
    + apply list_elem_of_In. vm_compute. tauto.
    + apply assign_permissions_row.
      exists {| r_id := 5; r_name := "viewer"; r_level := Some 10%Z;
                r_is_active := Some true |}, (permission 17 "user" "read").
      repeat split.
      * apply list_elem_of_In. vm_compute. tauto.
      * apply list_elem_of_In. vm_compute. tauto.
    + apply list_elem_of_In. vm_compute. tauto.
  - intros Hadmin act. apply not_true_is_false. intros Hhas.
    assert (Hg : exists scope, grant db now uid "user" act scope).
    { apply has_permission_grant in Hhas as [Hg|(w & _ & Hg)]; eauto. }
    destruct Hg as (scope & u & ur & r & rp & p
                    & (_ & Hur & _ & Hrp & Hp)
                    & (_ & Huid & Hrole & Hrprole & Hrpperm)
                    & (Hres & _) & _).
    rewrite (Hadmin ur Hur Huid) in Hrole. injection Hrole as Hrid.
    rewrite <- Hrid in Hrprole.
    rewrite Hrps in Hrp. rewrite Hperms in Hp.
    pose proof admin_holds_no_user_permission as Hall.
    rewrite forallb_forall in Hall.
    specialize (Hall rp (proj1 (list_elem_of_In _ _) Hrp)).
    rewrite forallb_forall in Hall.
    specialize (Hall p (proj1 (list_elem_of_In _ _) Hp)).
    apply negb_true_iff, bool_decide_eq_false in Hall. apply Hall. auto.
Qed.

Lemma viewer_reads_users_admin_does_not_witness :
  seeded office
  /\ user_has_permission office 0 (Some 1%positive) (Some "user")
       (Some "read") (Some 7%positive) = true
  /\ user_has_permission office 0 (Some 2%positive) (Some "user")
       (Some "read") (Some 7%positive) = false.
Proof.
  assert (Hs : seeded office) by (repeat split).
  split; [exact Hs|].
  destruct (viewer_reads_users_admin_does_not office 0 1%positive
              (Some 7%positive) Hs) as [Hviewer _].
  destruct (viewer_reads_users_admin_does_not office 0 2%positive
              (Some 7%positive) Hs) as [_ Hadmin].
  split.
  - apply Hviewer.
    exists {| u_id := 1; u_email := "alice@example.com";
              u_full_name := Some "Alice"; u_is_active := Some true;
              u_deleted_at := None |},
           {| ur_user_id := Some 1%positive; ur_role_id := Some 5%positive;
              ur_expires_at := None; ur_workspace_id := None |}.
    repeat split; apply list_elem_of_In; vm_compute; tauto.
  - apply Hadmin. intros ur Hur Huid.
    apply list_elem_of_In in Hur. simpl in Hur.
    destruct Hur as [<-|[<-|[]]]; [discriminate|reflexivity].
Defined.

Lemma grant_mono (db db' : Db) now uid res act scope :
  users db ⊆ users db' -> roles db ⊆ roles db' ->
  permissions db ⊆ permissions db' -> user_roles db ⊆ user_roles db' ->
  role_permissions db ⊆ role_permissions db' ->
  grant db now uid res act scope -> grant db' now uid res act scope.
Proof.
  intros H1 H2 H3 H4 H5
    (u & ur & r & rp & p & (Hu & Hur & Hr & Hrp & Hp) & Hrest).
  exists u, ur, r, rp, p. split; [|exact Hrest].
  repeat split; auto.
Qed.

(** Permissions only add up: there is no row that takes a permission
    away, so a check that succeeds keeps succeeding when rows are added to
    any of the tables; and a permission held when no workspace is named
    is held in every workspace. *)
Theorem permissions_accumulate
    (db db' : Db) (now : nat) (uid : positive) (res act : string)
    (ws : option positive) :
  users db ⊆ users db' -> roles db ⊆ roles db' ->
  permissions db ⊆ permissions db' -> user_roles db ⊆ user_roles db' ->
  role_permissions db ⊆ role_permissions db' ->
  (user_has_permission db now (Some uid) (Some res) (Some act) ws = true ->
   user_has_permission db' now (Some uid) (Some res) (Some act) ws = true)
  /\ (user_has_permission db now (Some uid) (Some res) (Some act) None
      = true ->
      user_has_permission db' now (Some uid) (Some res) (Some act) ws
      = true).
Proof.
  intros H1 H2 H3 H4 H5. split; intros H.
  - apply has_permission_grant. apply has_permission_grant in H.
    destruct H as [Hg|(w & -> & Hg)]; [left|right; exists w; split; auto];
      eapply grant_mono; eauto.
  - apply has_permission_grant. apply has_permission_grant in H.
    destruct H as [Hg|(w & Hw & _)]; [|discriminate].
    left. eapply grant_mono; eauto.
Qed.

Lemma permissions_accumulate_witness :
  user_has_permission office 0 (Some 1%positive) (Some "source")
    (Some "read") None = true
  /\ user_has_permission office 0 (Some 1%positive) (Some "source")
       (Some "read") (Some 9%positive) = true.
Proof.
  assert (H : user_has_permission office 0 (Some 1%positive)
                (Some "source") (Some "read") None = true)
    by (vm_compute; reflexivity).
  split; [exact H|].
  exact (proj2 (permissions_accumulate office office 0 1%positive
                  "source" "read" (Some 9%positive)
                  (fun _ Hx => Hx) (fun _ Hx => Hx) (fun _ Hx => Hx)
                  (fun _ Hx => Hx) (fun _ Hx => Hx)) H).
Defined.

(** The access level of a user in a workspace: under the constraint
    [unique_workspace_user] the function returns the level of the user's
    membership exactly when that membership is active, whatever the order
    of the rows, and NULL in every other case, also when the user or the
    workspace asked for is NULL. *)
Theorem workspace_access_level_of_member
    (db : Db) (u w : positive) :
  unique_workspace_user (workspace_members db) ->
  (forall lvl : string,
     get_workspace_access_level db (Some u) (Some w) = Some lvl
     <-> exists wm : WorkspaceMember,
           wm ∈ workspace_members db
           /\ wm_user_id wm = Some u /\ wm_workspace_id wm = Some w
           /\ wm_is_active wm = Some true /\ wm_access_level wm = lvl)
  /\ get_workspace_access_level db None (Some w) = None
  /\ get_workspace_access_level db (Some u) None = None.
Proof.
  intros Huniq.
  assert (Hmatch : forall (pu pw : option positive) (wm : WorkspaceMember),
            Sql.holds
              (Sql.tri_and
                 (Sql.tri_and (Sql.equal (wm_user_id wm) pu)
                              (Sql.equal (wm_workspace_id wm) pw))
                 (Sql.equal (wm_is_active wm) (Some true))) = true
            <-> (exists a, wm_user_id wm = Some a /\ pu = Some a)
                /\ (exists b, wm_workspace_id wm = Some b /\ pw = Some b)
                /\ wm_is_active wm = Some true).
  { intros pu pw wm. rewrite !holds_and, !holds_equal. split.
    - intros [[H1 H2] (c & H3 & [= <-])]. auto.
    - intros (H1 & H2 & H3). eauto. }
  assert (Hnone : forall pu pw,
            (forall wm, wm ∈ workspace_members db ->
                        ~ Sql.holds
                            (Sql.tri_and
                               (Sql.tri_and
                                  (Sql.equal (wm_user_id wm) pu)
                                  (Sql.equal (wm_workspace_id wm) pw))
                               (Sql.equal (wm_is_active wm) (Some true)))
                          = true) ->
            get_workspace_access_level db pu pw = None).
  { intros pu pw Hno. unfold get_workspace_access_level.
    destruct (filter _ (workspace_members db)) as [|x l] eqn:E;
      [reflexivity|].
    assert (Hx : x ∈ filter
              (fun wm => Sql.holds
                 (Sql.tri_and
                    (Sql.tri_and (Sql.equal (wm_user_id wm) pu)
                                 (Sql.equal (wm_workspace_id wm) pw))
                    (Sql.equal (wm_is_active wm) (Some true))) = true)
              (workspace_members db))
      by (rewrite E; apply list_elem_of_here).
    apply list_elem_of_filter in Hx as [Hx Hin].
    exfalso. exact (Hno x Hin Hx). }
  split; [|split].
  - intros lvl. unfold get_workspace_access_level.
    destruct (filter _ (workspace_members db)) as [|x l] eqn:E; simpl.
    + split; [discriminate|].
      intros (wm & Hin & Hu & Hw & Ha & _). exfalso.
      assert (Hx : wm ∈ filter
                (fun wm => Sql.holds
                   (Sql.tri_and
                      (Sql.tri_and
                         (Sql.equal (wm_user_id wm) (Some u))
                         (Sql.equal (wm_workspace_id wm) (Some w)))
                      (Sql.equal (wm_is_active wm) (Some true))) = true)
                (workspace_members db)).
      { apply list_elem_of_filter. split; [|exact Hin].
        apply Hmatch. split; [eauto|split; [eauto|exact Ha]]. }
      rewrite E in Hx. apply elem_of_nil in Hx. exact Hx.
    + assert (Hx : x ∈ filter
                (fun wm => Sql.holds
                   (Sql.tri_and
                      (Sql.tri_and
                         (Sql.equal (wm_user_id wm) (Some u))
                         (Sql.equal (wm_workspace_id wm) (Some w)))
                      (Sql.equal (wm_is_active wm) (Some true))) = true)
                (workspace_members db))
        by (rewrite E; apply list_elem_of_here).
      apply list_elem_of_filter in Hx as [Hx Hin].
      apply Hmatch in Hx as ((a & Hxu & [= <-]) & (b & Hxw & [= <-]) & Hxa).
      split.
      * intros [= <-]. exists x. auto.
      * intros (wm & Hwm & Hu & Hw & Ha & <-). f_equal.
        apply list_elem_of_lookup in Hin as [i Hi].
        apply list_elem_of_lookup in Hwm as [j Hj].
        assert (i = j) by (eapply (Huniq i j x wm w u); eauto).
        subst j. congruence.
  - apply Hnone. intros wm _ H. apply Hmatch in H as ((a & _ & H) & _).
    discriminate.
  - apply Hnone. intros wm _ H. apply Hmatch in H as (_ & (b & _ & H) & _).
    discriminate.
Qed.

Lemma workspace_access_level_of_member_witness :
  unique_workspace_user (workspace_members office)
  /\ get_workspace_access_level office (Some 2%positive) (Some 7%positive)
     = Some "admin"
  /\ get_workspace_access_level office (Some 1%positive) (Some 7%positive)
     = None.
Proof.
  assert (Hu : unique_workspace_user (workspace_members office)).
  { intros i j x y w u Hi Hj Hxw Hxu Hyw Hyu.
    destruct i as [|[|i]]; destruct j as [|[|j]]; simpl in Hi, Hj;
      try discriminate; try reflexivity;
      injection Hi as <-; injection Hj as <-; simpl in *; congruence. }
  split; [exact Hu|].
  destruct (workspace_access_level_of_member office 2%positive 7%positive Hu)
    as (H & _ & _).
  split; [|vm_compute; reflexivity].
  apply H.
  exists {| wm_workspace_id := Some 7%positive; wm_user_id := Some 2%positive;
            wm_access_level := "admin"; wm_is_active := Some true |}.
  repeat split. apply list_elem_of_here.
Defined.

End AccessControl.

(** * The integration health view *)

Section IntegrationHealthProperties.

Import IntegrationHealth.

Lemma sql_max_upper (values : list (option nat)) (t : nat) :
  Some t ∈ values -> exists m, sql_max values = Some m /\ t <= m.
Proof.
  induction values as [|v values IH]; intros Hin.
  - apply elem_of_nil in Hin. contradiction.
  - apply elem_of_cons in Hin as [<-|Hin]; simpl.
    + destruct (sql_max values) as [b|]; eexists; split; eauto; lia.
    + destruct (IH Hin) as (m & -> & Hm).
      destruct v as [a|]; eexists; split; eauto; lia.
Qed.

Lemma sql_max_attained (values : list (option nat)) (m : nat) :
  sql_max values = Some m -> Some m ∈ values.
Proof.
  revert m. induction values as [|v values IH]; intros m Hm; simpl in Hm.
  - discriminate.
  - destruct v as [a|]; [|apply list_elem_of_further, IH, Hm].
    destruct (sql_max values) as [b|] eqn:E.
    + injection Hm as <-. destruct (Nat.max_spec a b) as [[_ ->]|[_ ->]].
      * apply list_elem_of_further, IH. reflexivity.
      * apply list_elem_of_here.
    + injection Hm as <-. apply list_elem_of_here.
Qed.

(** The job counts of a connection: completed and failed jobs together
    never exceed the total, and fall short of it exactly when a job is in
    another state (or has no status).  The column named
    last_successful_sync is the latest completion time of any job of the
    connection, whatever its status: it bounds the completion time of each
    job, failed ones included, and is the completion time of one of
    them. *)
Theorem integration_health_counts (jobs : list SyncJob) (ic : positive) :
  let h := v_integration_health jobs ic in
  completed_jobs h + failed_jobs h <= total_jobs h
  /\ (completed_jobs h + failed_jobs h = total_jobs h
      <-> forall sj, sj ∈ jobs -> connection_id sj = Some ic ->
                     status sj = Some "completed"
                     \/ status sj = Some "failed")
  /\ (forall (sj : SyncJob) (t : nat),
        sj ∈ jobs -> connection_id sj = Some ic ->
        completed_at sj = Some t ->
        exists m, last_successful_sync h = Some m /\ t <= m)
  /\ (forall m : nat,
        last_successful_sync h = Some m ->
        exists sj, sj ∈ jobs /\ connection_id sj = Some ic
                   /\ completed_at sj = Some m).
Proof.
  intros h.
  assert (Hj : forall sj, sj ∈ joined_jobs jobs ic
                          <-> sj ∈ jobs /\ connection_id sj = Some ic).
  { intros sj. unfold joined_jobs. rewrite list_elem_of_filter, holds_equal.
    split.
    - intros [(a & [= <-] & H) Hin]. auto.
    - intros [Hin H]. split; [eauto|exact Hin]. }
  assert (Hc : forall l : list SyncJob,
            count_status "completed" l + count_status "failed" l <= length l
            /\ (count_status "completed" l + count_status "failed" l
                = length l
                <-> forall sj, sj ∈ l ->
                      status sj = Some "completed"
                      \/ status sj = Some "failed")).
  { unfold count_status. induction l as [|sj l [IH1 IH2]].
    - simpl. split; [lia|]. split; [|reflexivity].
      intros _ sj H. apply elem_of_nil in H. contradiction.
    - rewrite !filter_cons.
      destruct (decide (Sql.holds (Sql.equal (status sj) (Some "completed"))
                        = true)) as [E1|E1];
        destruct (decide (Sql.holds (Sql.equal (status sj) (Some "failed"))
                          = true)) as [E2|E2]; simpl length.
      + apply holds_equal in E1 as (a & Ha & [= <-]).
        apply holds_equal in E2 as (b & Hb & [= <-]). congruence.
      + apply holds_equal in E1 as (a & Ha & [= <-]).
        split; [lia|]. split.
        * intros H sj' Hin. apply elem_of_cons in Hin as [->|Hin]; [auto|].
          apply IH2; [lia|exact Hin].
        * intros H.
          assert (Hx := proj2 IH2 (fun sj' Hin =>
                          H sj' (list_elem_of_further _ _ _ Hin))).
          simpl. lia.
      + apply holds_equal in E2 as (a & Ha & [= <-]).
        split; [lia|]. split.
        * intros H sj' Hin. apply elem_of_cons in Hin as [->|Hin]; [auto|].
          apply IH2; [lia|exact Hin].
        * intros H.
          assert (Hx := proj2 IH2 (fun sj' Hin =>
                          H sj' (list_elem_of_further _ _ _ Hin))).
          simpl. lia.
      + split; [lia|]. split; [lia|]. intros H. exfalso.
        destruct (H sj (list_elem_of_here _ _)) as [Hs|Hs].
        * apply E1, holds_equal. eauto.
        * apply E2, holds_equal. eauto. }
  subst h. unfold v_integration_health. simpl.
  destruct (Hc (joined_jobs jobs ic)) as [Hle Heq].
  split; [exact Hle|]. split; [|split].
  - rewrite Heq. split; intros H sj.
    + intros Hin Hic. apply H, Hj. auto.
    + intros Hin. apply Hj in Hin as [Hin Hic]. auto.
  - intros sj t Hin Hic Ht. apply sql_max_upper.
    rewrite <- Ht. apply list_elem_of_In, in_map, list_elem_of_In, Hj. auto.
  - intros m Hm. apply sql_max_attained in Hm.
    apply list_elem_of_In, in_map_iff in Hm as (sj & Ht & Hin).
    apply list_elem_of_In, Hj in Hin as [Hin Hic]. eauto.
Qed.

End IntegrationHealthProperties.

(** * The evolution view on any log *)

Section EvolutionView.

Import History HistoryOrder.
Local Open Scope Q_scope.

(** On any log, tracked or not, the evolution view of an analysis lists
    the entries of that analysis and no others, newest first, and the
    score it shows beside an entry is the score of an entry of the
    analysis that is not stamped later.  Where no two entries of the
    analysis carry the same stamp, the score beside an entry is that of
    the entry just below it, the next older one, and NULL beside the
    oldest. *)
Theorem evolution_view_newest_first
    (logs : list ReadinessLog) (a : positive) :
  let view := v_readiness_evolution a logs in
  Permutation (map fst view) (partition_by a logs)
  /\ StronglySorted (flip not_after) (map fst view)
  /\ (forall (row : ReadinessLog * option Q) (p : Q),
        In row view -> snd row = Some p ->
        exists e : ReadinessLog,
          In e (partition_by a logs)
          /\ rigor_score e = p /\ not_after e (fst row))
  /\ (NoDup (map snapshot_timestamp (partition_by a logs)) ->
      (forall (above below : list (ReadinessLog * option Q))
              (row older : ReadinessLog * option Q),
         view = above ++ row :: older :: below ->
         snd row = Some (rigor_score (fst older)))
      /\ (forall row : ReadinessLog * option Q,
            last view = Some row -> snd row = None)).
Proof.
  intros view. subst view.
  set (window := order_by_timestamp (partition_by a logs)).
  assert (Hw : Permutation window (partition_by a logs))
    by apply order_by_timestamp_Permutation.
  assert (Hv : Permutation (v_readiness_evolution a logs)
                 (lag_rigor_score None window))
    by apply order_by_timestamp_desc_Permutation.
  split; [|split; [|split]].
  - rewrite Hv, lag_rigor_score_rows. exact Hw.
  - apply order_by_timestamp_desc_sorted.
  - intros [rl prev] p Hrow Hp. simpl in Hp. subst prev.
    apply list_elem_of_In in Hrow. rewrite Hv in Hrow.
    apply list_elem_of_In in Hrow.
    destruct (lag_rigor_score_older None window rl p) as [|(e & He & E & Hle)];
      [apply order_by_timestamp_StronglySorted|exact Hrow|discriminate|].
    exists e. split; [|auto].
    apply list_elem_of_In. rewrite <- Hw. apply list_elem_of_In, He.
  - intros Hnd.
    assert (Hs : StronglySorted before window).
    { apply StronglySorted_before;
        [apply order_by_timestamp_StronglySorted|].
      assert (Hpm : Permutation (map snapshot_timestamp window)
                      (map snapshot_timestamp (partition_by a logs)))
        by (apply Permutation_map, Hw).
      rewrite Hpm. exact Hnd. }
    rewrite (v_readiness_evolution_rev a logs Hs). fold window. split.
    + intros above below row older H.
      apply (f_equal (@rev _)) in H. rewrite rev_involutive in H.
      rewrite rev_app_distr in H. simpl in H.
      rewrite <- !app_assoc in H. simpl in H.
      eapply lag_rigor_score_adjacent, H.
    + intros row H.
      destruct (lag_rigor_score None window) as [|x l] eqn:E;
        [discriminate|].
      simpl in H. rewrite last_snoc in H. injection H as <-.
      apply (lag_rigor_score_head None window). rewrite E. reflexivity.
Qed.

End EvolutionView.

(** * The technology carousel *)

Section CarouselProperties.

Import TechCarousel.

(** The carousel track holds four sets of the items, and its second half
    repeats its first half item by item: shifted by half its length, as
    the scroll animation does, the track shows the same items again. *)
Theorem carousel_second_half_repeats_first (items : list Item) :
  let n := length items in
  length (four_sets items) = 4 * n
  /\ drop (2 * n) (four_sets items) = take (2 * n) (four_sets items)
  /\ (forall i : nat,
        i < 2 * n ->
        four_sets items !! (2 * n + i) = four_sets items !! i)
  /\ (forall i : nat,
        i < 4 * n -> four_sets items !! i = items !! (i mod n))
  /\ length carousel_list = 44.
Proof.
  intros n. subst n. unfold four_sets.
  assert (Hlen : length (items ++ items) = 2 * length items)
    by (rewrite length_app; lia).
  assert (Hd : drop (2 * length items) (items ++ items ++ items ++ items)
               = items ++ items).
  { rewrite (app_assoc items items (items ++ items)), <- Hlen.
    apply drop_app_length. }
  assert (Ht : take (2 * length items) (items ++ items ++ items ++ items)
               = items ++ items).
  { rewrite (app_assoc items items (items ++ items)), <- Hlen.
    apply take_app_length. }
  split; [rewrite !length_app; lia|].
  split; [rewrite Hd, Ht; reflexivity|]. split; [|split; [|reflexivity]].
  - intros i Hi.
    rewrite <- lookup_drop, Hd.
    rewrite (app_assoc items items (items ++ items)).
    symmetry. apply lookup_app_l. rewrite Hlen. exact Hi.
  - intros i Hi.
    assert (Hn : length items <> 0) by lia.
    assert (Hmod : i mod length items < length items)
      by (apply Nat.mod_upper_bound, Hn).
    assert (Hdiv : i = length items * (i / length items) + i mod length items)
      by (apply Nat.div_mod_eq).
    assert (Hq : i / length items < 4)
      by (apply Nat.Div0.div_lt_upper_bound; lia).
    set (q := i / length items) in *. set (r := i mod length items) in *.
    rewrite Hdiv.
    destruct q as [|[|[|[|q]]]]; try lia.
    + rewrite Nat.mul_0_r, Nat.add_0_l. apply lookup_app_l, Hmod.
    + rewrite Nat.mul_1_r, lookup_app_r by lia.
      replace (length items + r - length items) with r by lia.
      apply lookup_app_l, Hmod.
    + rewrite lookup_app_r by lia. rewrite lookup_app_r by lia.
      replace (length items * 2 + r - length items - length items)
        with r by lia.
      apply lookup_app_l, Hmod.
    + rewrite lookup_app_r by lia. rewrite lookup_app_r by lia.
      rewrite lookup_app_r by lia.
      replace (length items * 3 + r - length items - length items
               - length items) with r by lia.
      reflexivity.
Qed.

Lemma no_hyphen_app (s t : string) :
  no_hyphen (s +:+ t) = no_hyphen s && no_hyphen t.
Proof.
  induction s as [|c s IH]; simpl; [reflexivity|].
  rewrite IH, andb_assoc. reflexivity.
Qed.

Lemma no_hyphen_pretty_N_go (x : N) (s : string) :
  no_hyphen s = true -> no_hyphen (pretty_N_go x s) = true.
Proof.
  revert s. induction (N.lt_wf_0 x) as [x _ IH]; intros s Hs.
  assert (x = 0 \/ 0 < x)%N as [->|Hx] by lia.
  - rewrite pretty_N_go_0. exact Hs.
  - rewrite pretty_N_go_step by exact Hx. apply IH.
    + apply N.div_lt; [exact Hx|reflexivity].
    + simpl. rewrite Hs, andb_true_r.
      unfold pretty_N_char. repeat case_match; reflexivity.
Qed.

Lemma no_hyphen_pretty_nat (n : nat) : no_hyphen (pretty n) = true.
Proof.
  unfold pretty, pretty_nat, pretty, pretty_N.
  destruct (decide _); [reflexivity|].
  apply no_hyphen_pretty_N_go. reflexivity.
Qed.

Lemma after_last_hyphen (n1 n2 t1 t2 : string) :
  no_hyphen t1 = true -> no_hyphen t2 = true ->
  n1 +:+ "-" +:+ t1 = n2 +:+ "-" +:+ t2 -> n1 = n2 /\ t1 = t2.
Proof.
  intros H1 H2. revert n2.
  assert (Hno : forall a b t, no_hyphen t = true -> t <> a +:+ "-" +:+ b).
  { intros a b t Ht ->. rewrite !no_hyphen_app in Ht. simpl in Ht.
    rewrite andb_false_r in Ht. discriminate. }
  induction n1 as [|c n1 IH]; intros [|d n2] H; cbn in H.
  - injection H as H. auto.
  - injection H as Hd H. exfalso. eapply Hno; [exact H1|exact H].
  - injection H as Hc H. exfalso. eapply Hno; [exact H2|symmetry; exact H].
  - injection H as Hc H. destruct (IH n2 H) as [E1 E2]. subst. auto.
Qed.

(** The keys of the rendered carousel elements are pairwise distinct,
    although every item occurs four times: two elements with the same key
    have the same position.  The position alone decides it, whatever the
    names are, hyphens and digits included. *)
Theorem carousel_keys_unique (items : list Item) :
  NoDup (keys items)
  /\ NoDup (keys (four_sets items))
  /\ NoDup (keys carousel_list)
  /\ forall (i j : nat) (x y : Item), key i x = key j y -> i = j.
Proof.
  assert (Hkey : forall (i j : nat) (x y : Item), key i x = key j y -> i = j).
  { intros i j x y H. unfold key in H.
    apply after_last_hyphen in H as [_ H];
      [|apply no_hyphen_pretty_nat|apply no_hyphen_pretty_nat].
    apply (inj pretty) in H. exact H. }
  assert (Hnd : forall l : list Item, NoDup (keys l)).
  { intros l. apply NoDup_alt. intros i j k Hi Hj. unfold keys in Hi, Hj.
    rewrite list_lookup_imap in Hi, Hj.
    destruct (l !! i) as [x|]; [|discriminate].
    destruct (l !! j) as [y|]; [|discriminate].
    simpl in Hi, Hj. injection Hi as Hi. injection Hj as Hj.
    apply (Hkey i j x y). congruence. }
  split; [apply Hnd|]. split; [apply Hnd|]. split; [apply Hnd|exact Hkey].
Qed.

End CarouselProperties.
